(** * DavidGnome: the command-safety pipeline

    A shallow embedding of the Python sources [main.py], [config.py] and the
    backend modules, and the properties of the command classifier, the
    command extractor, the execution gate, the configuration reader and the
    prompt builders.

    Python [str] values are modelled by [string]: a character is a code
    point below 256, so the model covers Latin-1 text, on which
    [str.lower] and [str.strip] are given in full.  The pictographs that
    decorate the gate's messages lie outside that range and are written
    with their UTF-8 bytes; the gate only compares them with [startswith],
    which does not depend on the encoding. *)

From Stdlib Require Import String Ascii List Bool Arith ZArith Lia.
From Stdlib Require Import DecimalString.
Import ListNotations.

Open Scope string_scope.

(** ** Python string primitives *)

Module PyStr.

(** [c.isspace()] for a code point below 256: TAB..CR, FS..US, SPACE,
    NEL (133) and NBSP (160). *)
Definition is_space (c : ascii) : bool :=
  let n := nat_of_ascii c in
  (((9 <=? n) && (n <=? 13)) || ((28 <=? n) && (n <=? 32))
   || (n =? 133) || (n =? 160))%nat.

(** [c.lower()] for a code point below 256: A..Z and the Latin-1 capitals
    (192..222 except the multiplication sign 215) move up by 32. *)
Definition lower_char (c : ascii) : ascii :=
  let n := nat_of_ascii c in
  if (((65 <=? n) && (n <=? 90))
      || ((192 <=? n) && (n <=? 222) && negb (n =? 215)))%nat
  then ascii_of_nat (n + 32)
  else c.

(** [s.lower()] *)
Fixpoint lower (s : string) : string :=
  match s with
  | EmptyString => EmptyString
  | String c r => String (lower_char c) (lower r)
  end.

(** [s.lstrip()] *)
Fixpoint lstrip (s : string) : string :=
  match s with
  | EmptyString => EmptyString
  | String c r => if is_space c then lstrip r else s
  end.

(** [s.rstrip()] *)
Fixpoint rstrip (s : string) : string :=
  match s with
  | EmptyString => EmptyString
  | String c r =>
      match rstrip r with
      | EmptyString => if is_space c then EmptyString else String c EmptyString
      | r' => String c r'
      end
  end.

(** [s.strip()] *)
Definition strip (s : string) : string := lstrip (rstrip s).

(** [s.startswith(p)] *)
Fixpoint startswith (s p : string) {struct p} : bool :=
  match p, s with
  | EmptyString, _ => true
  | String _ _, EmptyString => false
  | String a p', String b s' => Ascii.eqb a b && startswith s' p'
  end.

(** [sub in s] *)
Fixpoint str_in (sub s : string) : bool :=
  startswith s sub
  || match s with
     | EmptyString => false
     | String _ r => str_in sub r
     end.

(** [s.split('\n')]: never empty, one more piece than there are newlines. *)
Fixpoint split_nl (s : string) : list string :=
  match s with
  | EmptyString => [EmptyString]
  | String c r =>
      if Ascii.eqb c "010"%char then EmptyString :: split_nl r
      else match split_nl r with
           | [] => [String c EmptyString]
           | l :: ls => String c l :: ls
           end
  end.

(** [sep.join(l)] *)
Fixpoint join (sep : string) (l : list string) : string :=
  match l with
  | [] => EmptyString
  | [x] => x
  | x :: r => x ++ sep ++ join sep r
  end.

(** Truthiness of a string: [bool(s)]. *)
Definition truthy (s : string) : bool :=
  match s with EmptyString => false | _ => true end.

End PyStr.

Import PyStr.

(** ** main.py: CommandClassifier *)

Module CommandClassifier.

Definition SAFE_COMMANDS : list string :=
  [ "ls"; "cd"; "cat"; "pwd"; "echo"; "which"; "whereis"; "man"; "help";
    "grep"; "find"; "head"; "tail"; "less"; "more"; "wc"; "sort"; "uniq";
    "date"; "cal"; "whoami"; "id"; "groups"; "history"; "alias"; "type";
    "file"; "stat"; "du"; "df"; "free"; "uptime"; "ps"; "top"; "htop";
    "git status"; "git log"; "git diff"; "git show"; "git branch" ].

Definition SUDO_COMMANDS : list string :=
  [ "sudo"; "su"; "passwd"; "usermod"; "groupmod"; "chown"; "chmod";
    "mount"; "umount"; "systemctl"; "service"; "apt"; "yum"; "dnf";
    "pacman"; "snap"; "pip install"; "npm install"; "gem install" ].

Definition DANGEROUS_COMMANDS : list string :=
  [ "rm -rf"; "dd"; "mkfs"; "fdisk"; "parted"; "shred"; "wipefs";
    ":(){:|:&};:"; ":(){ :|:& };:"; "fork()"; "while true";
    "> /dev/"; "truncate"; ">/dev/sda"; ">/dev/sd" ].

Definition FILESYSTEM_DESTRUCTIVE : list string :=
  [ "rm"; "rmdir"; "mv"; "cp"; "ln"; "unlink" ].

(** The list literal of the protected-path test inside [classify_command]. *)
Definition PROTECTED_PATHS : list string :=
  [ "/"; "/home"; "/etc"; "/usr"; "/var"; "/boot" ].

Definition classify_command (cmd : string) : string :=
  let cmd_lower := strip (lower cmd) in
  if existsb (fun danger => str_in danger cmd_lower) DANGEROUS_COMMANDS
  then "dangerous"
  else if existsb (fun fs_cmd => startswith cmd_lower fs_cmd)
                  FILESYSTEM_DESTRUCTIVE
  then
    if existsb (fun path => str_in path cmd_lower) PROTECTED_PATHS
    then "dangerous"
    else "sudo"
  else if existsb (fun sudo_cmd => startswith cmd_lower sudo_cmd)
                  SUDO_COMMANDS
  then "sudo"
  else if existsb (fun safe_cmd => startswith cmd_lower safe_cmd)
                  SAFE_COMMANDS
  then "safe"
  else "unknown".

End CommandClassifier.

(** ** The two regular expressions of [extract_commands]

    [re.findall] scans the text from left to right; at each position it
    tries the pattern, and after a match it resumes at the end of the
    match.  Both patterns have one group, so the result is the list of the
    groups' texts.  A matcher returns the group and the text that follows
    the match. *)

Module Regex.

Definition nl : string := String "010"%char EmptyString.
Definition backtick : ascii := "`"%char.
Definition fence : string := "```".

(** The rest of [s] after the literal [p], when [s] starts with it. *)
Fixpoint strip_prefix (p s : string) {struct p} : option string :=
  match p, s with
  | EmptyString, _ => Some s
  | String _ _, EmptyString => None
  | String a p', String b s' =>
      if Ascii.eqb a b then strip_prefix p' s' else None
  end.

(** [(.*?)```] under DOTALL: the shortest text up to a closing fence. *)
Fixpoint until_fence (s : string) : option (string * string) :=
  match strip_prefix fence s with
  | Some rest => Some (EmptyString, rest)
  | None =>
      match s with
      | EmptyString => None
      | String c r =>
          match until_fence r with
          | Some (body, rest) => Some (String c body, rest)
          | None => None
          end
      end
  end.

(** The alternatives of [(?:bash|sh|shell)?] in the order the engine tries
    them: the three tags, then the empty text. *)
Definition lang_tags : list string := ["bash"; "sh"; "shell"; ""].

(** [(?:bash|sh|shell)?\n(.*?)```] after the opening fence, backtracking
    over the alternatives. *)
Fixpoint try_tags (tags : list string) (s : string)
  : option (string * string) :=
  match tags with
  | [] => None
  | t :: ts =>
      let attempt :=
        match strip_prefix (t ++ nl) s with
        | Some r => until_fence r
        | None => None
        end in
      match attempt with
      | Some m => Some m
      | None => try_tags ts s
      end
  end.

(** [```(?:bash|sh|shell)?\n(.*?)```] at the start of [s]. *)
Definition match_code_block (s : string) : option (string * string) :=
  match strip_prefix fence s with
  | Some r => try_tags lang_tags r
  | None => None
  end.

(** Membership in the class [[^`\n]]. *)
Definition inline_char (c : ascii) : bool :=
  negb (Ascii.eqb c backtick) && negb (Ascii.eqb c "010"%char).

(** The longest run of [[^`\n]] at the start of [s], and what follows. *)
Fixpoint take_run (s : string) : string * string :=
  match s with
  | EmptyString => (EmptyString, EmptyString)
  | String c r =>
      if inline_char c
      then let (run, rest) := take_run r in (String c run, rest)
      else (EmptyString, s)
  end.

(** [`([^`\n]+)`] at the start of [s].  The run is greedy; giving
    characters back never helps, since a character of the run is not a
    backtick. *)
Definition match_inline (s : string) : option (string * string) :=
  match s with
  | String c r =>
      if Ascii.eqb c backtick then
        match take_run r with
        | (String _ _ as run, String d rest) =>
            if Ascii.eqb d backtick then Some (run, rest) else None
        | _ => None
        end
      else None
  | EmptyString => None
  end.

(** [re.findall] for a pattern that never matches the empty text: [fuel]
    bounds the number of positions tried. *)
Fixpoint findall_fuel (m : string -> option (string * string))
    (fuel : nat) (s : string) : list string :=
  match fuel with
  | 0 => []
  | S fuel' =>
      match m s with
      | Some (group, rest) => group :: findall_fuel m fuel' rest
      | None =>
          match s with
          | EmptyString => []
          | String _ r => findall_fuel m fuel' r
          end
      end
  end.

Definition findall (m : string -> option (string * string)) (s : string)
  : list string :=
  findall_fuel m (S (String.length s)) s.

End Regex.

(** ** main.py: CommandExtractor *)

Module CommandExtractor.

Import Regex.

(** The list literal of the inline test inside [extract_commands]. *)
Definition INLINE_PREFIXES : list string :=
  [ "ls"; "cd"; "cat"; "grep"; "find"; "mkdir"; "rm"; "cp"; "mv"; "sudo";
    "touch" ].

Definition extract_commands (text : string) : list string :=
  let code_blocks := findall match_code_block text in
  let inline_commands := findall match_inline text in
  let commands : list string := [] in
  let commands :=
    fold_left
      (fun commands block =>
         let lines := split_nl (strip block) in
         fold_left
           (fun commands line =>
              let line := strip line in
              if truthy line && negb (startswith line "#")
              then (commands ++ [line])%list
              else commands)
           lines commands)
      code_blocks commands in
  let commands :=
    fold_left
      (fun commands cmd =>
         let cmd := strip cmd in
         if str_in " " cmd
            && existsb (fun c => startswith cmd c) INLINE_PREFIXES
         then (commands ++ [cmd])%list
         else commands)
      inline_commands commands in
  commands.

End CommandExtractor.

(** ** Results of fallible Python code *)

Module Py.

Inductive exn : Type :=
| OSError                       (* [open] fails *)
| JSONDecodeError               (* [json.load] on text that is not JSON *)
| AttributeError                (* a method the value does not have *)
| EOFError                      (* [input] at the end of the input *)
| KeyboardInterrupt             (* the user interrupts the process *)
| BackendError (msg : string).  (* the model query fails *)

(** [isinstance(e, Exception)]: what a handler [except Exception] takes.
    [KeyboardInterrupt] is not an [Exception]. *)
Definition is_Exception (e : exn) : bool :=
  match e with
  | KeyboardInterrupt => false
  | _ => true
  end.

Inductive outcome (A : Type) : Type :=
| Returns (a : A)
| Raises (e : exn).

Arguments Returns {A} a.
Arguments Raises {A} e.

End Py.

Import Py.

(** ** config.py *)

Module config.

(** A value that [json.load] returns.  A number keeps its text. *)
#[warnings="-register-all"]
Inductive json : Type :=
| JNull
| JBool (b : bool)
| JNumber (text : string)
| JString (s : string)
| JArray (items : list json)
| JObject (members : list (string * json)).

(** The state of the file at [CONFIG_PATH], by what the library calls do
    on it: [exists()] is false; [open] raises; [json.load] raises on the
    text; [json.load] returns a value.  The members of an object are in
    the order of the text. *)
Inductive config_file : Type :=
| Absent
| Unreadable
| Malformed (text : string)
| Holds (value : json).

(** [json.load] builds a dict by inserting the members in order, so the
    last member with a key wins; [d.get(key, default)]. *)
Fixpoint dict_get (members : list (string * json)) (key : string)
    (default : json) : json :=
  match members with
  | [] => default
  | (k, v) :: rest =>
      if String.eqb k key then dict_get rest key v
      else dict_get rest key default
  end.

(** [value.get(key, default)]: only a dict has the method. *)
Definition get (value : json) (key : string) (default : json)
  : outcome json :=
  match value with
  | JObject members => Returns (dict_get members key default)
  | _ => Raises AttributeError
  end.

(** [CONFIG_PATH.exists()] *)
Definition exists_ (f : config_file) : bool :=
  match f with Absent => false | _ => true end.

(** [json.load(open(CONFIG_PATH))] *)
Definition load (f : config_file) : outcome json :=
  match f with
  | Absent | Unreadable => Raises OSError
  | Malformed _ => Raises JSONDecodeError
  | Holds value => Returns value
  end.

Definition get_backend (f : config_file) : outcome json :=
  if exists_ f then
    match load f with
    | Returns value => get value "backend" (JString "ollama")
    | Raises e => Raises e
    end
  else Returns (JString "ollama").

End config.

(** ** prompts.py and the backends' requests *)

Module prompts.

Definition lf : string := String "010"%char EmptyString.

Definition SYSTEM_PROMPT_OLLAMA : string :=
  "You are a terminal assistant for Linux power users who us Ubuntu. You help users solve Linux terminal problems by outputting clean, secure commands." ++ lf
  ++ lf
  ++ "RESPONSE FORMAT RULES:" ++ lf
  ++ "- Always provide a brief explanation followed by a bash code block" ++ lf
  ++ "- Use triple backticks with 'bash' language identifier" ++ lf
  ++ "- Include a concise comment above each command" ++ lf
  ++ "- If multiple approaches exist, provide them in separate code blocks in the order of preference" ++ lf
  ++ lf.

Definition SYSTEM_PROMPT : string :=
  "You are a terminal assistant for Linux power users who us Ubuntu." ++ lf.

End prompts.

Module backends.

Import prompts.

Record message : Type := { role : string; content : string }.

(** What a backend hands to its model. *)
Record request : Type := {
  model : string;
  max_tokens : option nat;
  stream : option bool;
  messages : list message
}.

(** [history[-n:]] for a positive [n]. *)
Definition last_entries (n : nat) (history : list string) : list string :=
  skipn (List.length history - n) history.

Module gpt_backend.

Definition query_request (prompt : string) (history : list string)
    (system_info : string) : request :=
  let full_prompt :=
    "Terminal history: " ++ join ", " (last_entries 10 history)
    ++ lf ++ lf ++ "System: " ++ system_info
    ++ lf ++ lf ++ "Question: " ++ prompt in
  let messages :=
    [ {| role := "system"; content := SYSTEM_PROMPT |};
      {| role := "user"; content := full_prompt |} ] in
  {| model := "gpt-3.5-turbo"; max_tokens := None; stream := None;
     messages := messages |}.

End gpt_backend.

Module claude_backend.

Definition query_request (prompt : string) (history : list string)
    (system_info : string) : request :=
  let full_prompt :=
    "Terminal history: " ++ join ", " (last_entries 10 history)
    ++ lf ++ lf ++ "System: " ++ system_info
    ++ lf ++ lf ++ "Question: " ++ prompt in
  let messages :=
    [ {| role := "system"; content := SYSTEM_PROMPT |};
      {| role := "user"; content := full_prompt |} ] in
  {| model := "claude-3-haiku-20240307"; max_tokens := Some 1000;
     stream := None; messages := messages |}.

End claude_backend.

Module ollama_backend.

Definition query_request (prompt : string) (history : list string)
    (system_info : string) (model : string) : request :=
  let full_prompt :=
    "Terminal history: " ++ join ", " (last_entries 10 history)
    ++ lf ++ lf ++ "System: " ++ system_info
    ++ lf ++ lf ++ "Question: " ++ prompt in
  {| backends.model := model; max_tokens := None; stream := Some false;
     messages :=
       [ {| role := "system"; content := SYSTEM_PROMPT_OLLAMA |};
         {| role := "user"; content := full_prompt |} ] |}.

End ollama_backend.

(** The backends that [main] can load. *)
Inductive backend : Type := Gpt | Claude | Ollama.

(** The request of [backend_module.query(prompt, history, system_info)];
    the Ollama model has its default. *)
Definition query_request (b : backend) (prompt : string)
    (history : list string) (system_info : string) : request :=
  match b with
  | Gpt => gpt_backend.query_request prompt history system_info
  | Claude => claude_backend.query_request prompt history system_info
  | Ollama =>
      ollama_backend.query_request prompt history system_info "linux_gnome"
  end.

End backends.

(** ** main.py: GumCommandInterface *)

Module GumCommandInterface.

Import Regex CommandClassifier.

(** The decorations of the messages, as the UTF-8 bytes of the source. *)
Definition of_bytes (codes : list nat) : string :=
  fold_right (fun n s => String (ascii_of_nat n) s) EmptyString codes.

Definition CLIPBOARD : string :=
  Eval vm_compute in of_bytes [239; 163; 191; 195; 188; 195; 172; 195; 163].
Definition MAGNIFIER : string :=
  Eval vm_compute in of_bytes [239; 163; 191; 195; 188; 195; 174; 195; 167].
Definition WARNING : string :=
  Eval vm_compute in
    of_bytes [226; 128; 154; 195; 182; 226; 128; 160; 195; 148; 226; 136;
              143; 195; 168].
Definition SIREN : string :=
  Eval vm_compute in of_bytes [239; 163; 191; 195; 188; 195; 182; 194; 174].
Definition LOCK : string :=
  Eval vm_compute in of_bytes [239; 163; 191; 195; 188; 195; 174; 195; 173].
Definition CROSS : string :=
  Eval vm_compute in of_bytes [226; 128; 154; 195; 185; 195; 165].
Definition ROCKET : string :=
  Eval vm_compute in of_bytes [239; 163; 191; 195; 188; 195; 182; 195; 132].
Definition OUTBOX : string :=
  Eval vm_compute in of_bytes [239; 163; 191; 195; 188; 195; 172; 194; 167].

(** What [subprocess.run(["/bin/bash", "-c", command], ...)] does. *)
Inductive process : Type :=
| SpawnFails (error : string)
| Completed (returncode : Z) (stdout stderr : string).

(** The collaborators of one run: the user in front of the dialogs, the
    backend module and the operating system.  A dialog ends with an answer
    or with an exception that its function does not handle: [EOFError]
    when [input] finds the end of the input, [KeyboardInterrupt], an
    [OSError] of [subprocess.run] other than the missing gum. *)
Record world : Type := {
  confirm_answer : string -> outcome bool;
  choose_answer : list string -> string -> outcome string;
  backend_query : string -> list string -> string -> outcome string;
  bash : string -> process
}.

(** What a run does, in order: what it prints, the dialogs with their
    answers, the dialogs that end with an exception, the queries to the
    backend, and the commands handed to bash.  A dialog is one event,
    whether gum draws it or the fallback on standard input. *)
Inductive event : Type :=
| Printed (text : string)
| Confirmed (message : string) (answer : bool)
| Chose (options : list string) (header : string) (choice : string)
| Interrupted (dialog : string) (e : exn)
| Queried (prompt : string)
| Spawned (command : string).

(** A computation that extends the trace and returns or raises. *)
Definition io (A : Type) : Type := list event -> outcome A * list event.

Definition ret {A : Type} (a : A) : io A := fun t => (Returns a, t).

Definition bind {A B : Type} (m : io A) (k : A -> io B) : io B :=
  fun t =>
    match m t with
    | (Returns a, t') => k a t'
    | (Raises e, t') => (Raises e, t')
    end.

Definition emit (e : event) : io unit :=
  fun t => (Returns tt, (t ++ [e])%list).

Definition raise {A : Type} (e : exn) : io A := fun t => (Raises e, t).

Notation "x <- m ;; k" := (bind m (fun x => k))
  (at level 61, m at next level, right associativity).
Notation "m ;; k" := (bind m (fun _ => k))
  (at level 61, right associativity).

Definition print (text : string) : io unit := emit (Printed text).

Definition EXIT_OPTION : string := "Don't run a command".

(** [gum_confirm]: the dialog, by gum or by the y/N line.  It has a
    handler for the missing gum only: any other exception leaves it. *)
Definition gum_confirm (w : world) (message : string) : io bool :=
  match confirm_answer w message with
  | Returns answer => emit (Confirmed message answer) ;; ret answer
  | Raises e => emit (Interrupted message e) ;; raise e
  end.

(** What [gum_choose] ends with: the exit option is added to the options;
    no selection is the exit option. *)
Definition chosen (w : world) (options : list string) (header : string)
  : outcome string :=
  let full_options := (options ++ [EXIT_OPTION])%list in
  match choose_answer w full_options header with
  | Returns selected =>
      Returns (if truthy selected then selected else EXIT_OPTION)
  | Raises e => Raises e
  end.

(** [gum_choose]: the menu, by gum or by the numbered list.  The loop of
    the numbered list handles [ValueError] only. *)
Definition gum_choose (w : world) (options : list string) (header : string)
  : io string :=
  match chosen w options header with
  | Returns choice =>
      emit (Chose (options ++ [EXIT_OPTION])%list header choice) ;;
      ret choice
  | Raises e => emit (Interrupted header e) ;; raise e
  end.

Definition explain_command_risks (w : world) (command : string)
    (history : list string) (system_info : string) : io string :=
  let risk_prompt :=
    "Explain the potential risks and dangers of running this command: '"
    ++ command
    ++ "'. What could go wrong? What precautions should be taken?" in
  emit (Queried risk_prompt) ;;
  fun t => (backend_query w risk_prompt history system_info, t).

Definition execute_command (w : world) (command : string) : io bool :=
  print (nl ++ ROCKET ++ " Executing: " ++ command) ;;
  emit (Spawned command) ;;
  match bash w command with
  | Completed returncode stdout stderr =>
      (if truthy stdout
       then print (OUTBOX ++ " Output:") ;; print stdout
       else ret tt) ;;
      (if truthy stderr
       then print (WARNING ++ "  Errors:") ;; print stderr
       else ret tt) ;;
      ret (returncode =? 0)%Z
  | SpawnFails e =>
      print (CROSS ++ " Error executing command: " ++ e) ;;
      ret false
  end.

Definition handle_command_execution (w : world) (command : string)
    (history : list string) (system_info : string) : io bool :=
  let classification := classify_command command in
  print (nl ++ CLIPBOARD ++ " Command: " ++ command) ;;
  print (MAGNIFIER ++ " Classification: " ++ classification) ;;
  if String.eqb classification "safe" then
    ok <- gum_confirm w ("Run safe command: " ++ command ++ "?") ;;
    if ok then execute_command w command else ret false
  else if String.eqb classification "sudo" then
    ok <- gum_confirm w
            (WARNING ++ "  This command requires elevated privileges: "
             ++ command ++ nl ++ "Proceed?") ;;
    if ok then execute_command w command else ret false
  else if String.eqb classification "dangerous" then
    choice <- gum_choose w
                [ SIREN ++ " Explain risks first";
                  LOCK ++ " I understand the risks, proceed anyway";
                  CROSS ++ " Cancel" ]
                (WARNING ++ "  DANGEROUS COMMAND DETECTED: " ++ command) ;;
    if truthy choice && startswith choice SIREN then
      risks <- explain_command_risks w command history system_info ;;
      print (nl ++ SIREN ++ " RISK ANALYSIS:" ++ nl ++ risks ++ nl) ;;
      ok <- gum_confirm w
              "After reading the risks, do you still want to proceed?" ;;
      if ok then execute_command w command else ret false
    else if truthy choice && startswith choice LOCK then
      ok <- gum_confirm w
              "Are you sure you want to proceed with this dangerous command?" ;;
      if ok then execute_command w command else ret false
    else ret false
  else
    ok <- gum_confirm w
            (WARNING ++ "  Unknown command classification: " ++ command
             ++ nl ++ "Proceed with caution?") ;;
    if ok then execute_command w command else ret false.

(** One call of the gate on a fresh trace. *)
Definition gate (w : world) (command : string) (history : list string)
    (system_info : string) : outcome bool * list event :=
  handle_command_execution w command history system_info [].

End GumCommandInterface.

(** ** Users and systems for the scenarios *)

Module Scenarios.

Import GumCommandInterface.

(** Picks Cancel at the three-way choice. *)
Definition cancelling_user : world := {|
  confirm_answer := fun _ => Returns true;
  choose_answer := fun _ _ => Returns (CROSS ++ " Cancel");
  backend_query := fun _ _ _ => Returns "It deletes files.";
  bash := fun _ => Completed 0 "" ""
|}.

(** Says no to every confirmation. *)
Definition declining_user : world := {|
  confirm_answer := fun _ => Returns false;
  choose_answer :=
    fun _ _ => Returns (LOCK ++ " I understand the risks, proceed anyway");
  backend_query := fun _ _ _ => Returns "It deletes files.";
  bash := fun _ => Completed 0 "" ""
|}.

(** Says yes to everything, on a system where the command exits with 2. *)
Definition approving_user_failing_command : world := {|
  confirm_answer := fun _ => Returns true;
  choose_answer :=
    fun _ _ => Returns (LOCK ++ " I understand the risks, proceed anyway");
  backend_query := fun _ _ _ => Returns "It deletes files.";
  bash := fun _ => Completed 2 "" "ls: cannot access 'nowhere'"
|}.

(** Says yes to everything, on a system where bash cannot be started. *)
Definition approving_user_no_bash : world := {|
  confirm_answer := fun _ => Returns true;
  choose_answer := fun _ _ => Returns (SIREN ++ " Explain risks first");
  backend_query := fun _ _ _ => Returns "It deletes files.";
  bash := fun _ => SpawnFails "[Errno 2] No such file or directory: '/bin/bash'"
|}.

End Scenarios.

(** ** Vocabulary of the properties *)

Module Vocabulary.

Import Regex CommandExtractor GumCommandInterface.

(** [occurs sub s]: [sub] is a contiguous part of [s]. *)
Definition occurs (sub s : string) : Prop :=
  exists pre post, s = pre ++ sub ++ post.

(** Every character of [s] passes the test [P]. *)
Fixpoint all_chars (P : ascii -> bool) (s : string) : bool :=
  match s with
  | EmptyString => true
  | String c r => P c && all_chars P r
  end.

Definition not_backtick (c : ascii) : bool := negb (Ascii.eqb c backtick).
Definition not_newline (c : ascii) : bool := negb (Ascii.eqb c "010"%char).

(** A matcher consumes at least one character. *)
Definition shrinking (m : string -> option (string * string)) : Prop :=
  forall s group rest,
    m s = Some (group, rest) -> String.length rest < String.length s.

(** The test of the inner loop over a block's lines. *)
Definition keeps_line (line : string) : bool :=
  truthy line && negb (startswith line "#").

(** The test of the loop over the inline spans. *)
Definition keeps_inline (cmd : string) : bool :=
  str_in " " cmd && existsb (fun c => startswith cmd c) INLINE_PREFIXES.

(** The lines of a region: split at newlines, each line trimmed, empty
    lines and lines starting with [#] dropped. *)
Definition region_lines (body : string) : list string :=
  filter keeps_line (map strip (split_nl body)).

(** What the loop over the blocks appends for one block: the block is
    trimmed before it is split. *)
Definition block_commands (block : string) : list string :=
  filter keeps_line (map strip (split_nl (strip block))).

(** What the loop over the inline spans appends for one span. *)
Definition inline_command (span : string) : list string :=
  if keeps_inline (strip span) then [strip span] else [].

(** The inline commands of a text, in order. *)
Definition inline_kept (text : string) : list string :=
  flat_map inline_command (findall match_inline text).

(** A fenced region with its language tag. *)
Definition fenced (tag body : string) : string :=
  fence ++ tag ++ nl ++ body ++ fence.

(** A command wrapped in a fenced block tagged bash. *)
Definition wrap (c : string) : string :=
  "```bash" ++ nl ++ c ++ nl ++ "```".

(** No fence starts inside [s], not even one completed by two backticks
    that follow [s]. *)
Definition fence_free (s : string) : Prop := ~ occurs fence (s ++ "``").

(** The shape of a command that [extract_commands] returns: trimmed and
    not empty, on one line, not a comment, and without a fence. *)
Definition extracted_shape (c : string) : Prop :=
  c <> "" /\ strip c = c /\ all_chars not_newline c = true
  /\ startswith c "#" = false /\ ~ occurs fence c.

(** The user turns the command down: a "no" to a confirmation, or
    Cancel or no selection at the three-way choice. *)
Definition rejection (e : event) : Prop :=
  match e with
  | Confirmed _ answer => answer = false
  | Chose _ _ choice => choice = CROSS ++ " Cancel" \/ choice = EXIT_OPTION
  | _ => False
  end.

Definition rejected (trace : list event) : Prop :=
  exists e, In e trace /\ rejection e.

(** The first thing [execute_command] does is to print this line. *)
Definition executing_banner (command : string) : string :=
  nl ++ ROCKET ++ " Executing: " ++ command.

(** [execute_command] was entered, or a subprocess was started. *)
Definition execute_command_invoked (trace : list event) : Prop :=
  exists c, In (Printed (executing_banner c)) trace \/ In (Spawned c) trace.

(** The gate ends in [execute_command], entered after a "yes" and
    without any rejection before. *)
Definition ends_executing (w : world) (command : string)
    (run : outcome bool * list event) : Prop :=
  exists t message,
    run = execute_command w command (t ++ [Confirmed message true])%list
    /\ confirm_answer w message = Returns true
    /\ ~ rejected t /\ ~ execute_command_invoked t.

(** The gate returns [False] without entering [execute_command], after a
    "no" or after a choice that neither explains nor proceeds. *)
Definition ends_declined (w : world) (run : outcome bool * list event)
  : Prop :=
  exists t,
    run = (Returns false, t) /\ ~ execute_command_invoked t
    /\ ((exists message, confirm_answer w message = Returns false)
        \/ (exists options header choice,
               chosen w options header = Returns choice
               /\ truthy choice && startswith choice SIREN = false
               /\ truthy choice && startswith choice LOCK = false)).

(** The gate raises, because the backend or a dialog did, before any
    rejection and without entering [execute_command]. *)
Definition ends_raising (w : world) (history : list string)
    (system_info : string) (run : outcome bool * list event) : Prop :=
  exists e t,
    run = (Raises e, t) /\ ~ rejected t /\ ~ execute_command_invoked t
    /\ ((exists prompt,
            backend_query w prompt history system_info = Raises e)
        \/ (exists message, confirm_answer w message = Raises e)
        \/ (exists options header, chosen w options header = Raises e)).

(** An event that does not come from [execute_command]. *)
Definition outside_execute (e : event) : Prop :=
  match e with
  | Printed text => forall c, text <> executing_banner c
  | Spawned _ => False
  | _ => True
  end.

(** The three ways in which the gate ends. *)
Definition gate_end (w : world) (command : string) (history : list string)
    (system_info : string) (run : outcome bool * list event) : Prop :=
  ends_executing w command run \/ ends_declined w run
  \/ ends_raising w history system_info run.

(** The user says no to every confirmation, and answers the menus. *)
Definition declines_all (w : world) : Prop :=
  (forall message, confirm_answer w message = Returns false) /\
  (forall options header,
      exists choice, choose_answer w options header = Returns choice).

(** The user says yes to every confirmation, and at the three-way choice
    asks for the risks or proceeds. *)
Definition approves_all (w : world) : Prop :=
  (forall message, confirm_answer w message = Returns true) /\
  (forall options header,
      choose_answer w options header
      = Returns (SIREN ++ " Explain risks first") \/
      choose_answer w options header
      = Returns (LOCK ++ " I understand the risks, proceed anyway")).

(** Every dialog is answered: none ends with an exception. *)
Definition dialogs_answered (w : world) : Prop :=
  (forall message, exists answer, confirm_answer w message = Returns answer)
  /\ (forall options header,
        exists choice, choose_answer w options header = Returns choice).

(** The backend answers every query. *)
Definition backend_answers (w : world) : Prop :=
  forall prompt history system_info,
    exists text, backend_query w prompt history system_info = Returns text.

(** The subprocess cannot be started, or exits with a non-zero code. *)
Definition fails (p : process) : Prop :=
  match p with
  | SpawnFails _ => True
  | Completed returncode _ _ => returncode <> 0%Z
  end.

End Vocabulary.

Import Vocabulary.

(** ** main.py: the dialogs without gum, and the presenter *)

Module Presenter.

Import Regex CommandExtractor GumCommandInterface.

(** What running gum gives: the executable is missing, or it exits with a
    code and its standard output. *)
Inductive gum_run : Type :=
| GumMissing
| GumExit (returncode : Z) (stdout : string).

(** What [gum_choose] ends with: a selection, the end of the input while
    it waits for a number, or an index out of range. *)
Inductive menu_result : Type :=
| Selected (text : string)
| EndOfInput
| IndexError.

(** [str(n)] for a natural number. *)
Definition str_of_nat (n : nat) : string :=
  NilEmpty.string_of_uint (Nat.to_uint n).

(** The lines [f"{i}. {option}"] of [enumerate(options, i)]. *)
Fixpoint numbered (i : nat) (options : list string) : list string :=
  match options with
  | [] => []
  | option :: rest =>
      (str_of_nat i ++ ". " ++ option) :: numbered (S i) rest
  end.

(** The [while True] loop of the numbered menu.  An entry of [typed] is
    what [int(input(...))] makes of a line: a number, or [None] for a
    [ValueError].  The second component is what the loop prints. *)
Fixpoint menu_loop (options : list string) (typed : list (option Z))
  : menu_result * list string :=
  match typed with
  | [] => (EndOfInput, [])
  | None :: rest =>
      let (r, out) := menu_loop options rest in
      (r, "Please enter a number." :: out)
  | Some choice :: rest =>
      if (choice =? 0)%Z then (Selected EXIT_OPTION, [])
      else if ((1 <=? choice) && (choice <=? Z.of_nat (List.length options)))%Z
      then
        match nth_error options (Z.to_nat (choice - 1)) with
        | Some option => (Selected option, [])
        | None => (IndexError, [])
        end
      else
        let (r, out) := menu_loop options rest in
        (r, "Invalid choice, try again." :: out)
  end.

(** [gum_choose]: gum's output when gum exits with 0 ([check=True]);
    otherwise the warning, with the text [gum_error] of the exception,
    and the numbered menu on standard input. *)
Definition gum_choose_run (options : list string) (header : string)
    (gum : gum_run) (gum_error : string) (typed : list (option Z))
  : menu_result * list string :=
  let fallback :=
    let (r, out) := menu_loop options typed in
    (r,
     ("Warning: 'gum' command failed or not found (" ++ gum_error
      ++ "), falling back to standard input.")
     :: (nl ++ header)
     :: (numbered 1 options ++ ("0. " ++ EXIT_OPTION)%string :: out)%list) in
  match gum with
  | GumExit returncode stdout =>
      if (returncode =? 0)%Z then
        let selected := strip stdout in
        if truthy selected then (Selected selected, [])
        else (Selected EXIT_OPTION, [])
      else fallback
  | GumMissing => fallback
  end.

(** [gum_confirm]: gum's return code, or the y/N line when gum is
    missing. *)
Definition gum_confirm_run (gum : gum_run) (typed : string) : bool :=
  match gum with
  | GumExit returncode _ => (returncode =? 0)%Z
  | GumMissing =>
      let response := lower (strip typed) in
      existsb (String.eqb response) ["y"; "yes"]
  end.

(** The loop that lists the commands found. *)
Fixpoint print_numbered (i : nat) (commands : list string) : io unit :=
  match commands with
  | [] => ret tt
  | cmd :: rest =>
      bind (print ("  " ++ str_of_nat i ++ ". " ++ cmd))
           (fun _ => print_numbered (S i) rest)
  end.

Definition process_ai_response (w : world) (response : string)
    (history : list string) (system_info : string) : io unit :=
  bind (print response) (fun _ =>
  let commands := extract_commands response in
  match commands with
  | [] => print (nl ++ "No executable commands found in the response.")
  | _ :: _ =>
      bind (print (nl ++ MAGNIFIER ++ " Found "
                   ++ str_of_nat (List.length commands)
                   ++ " command(s) in response:")) (fun _ =>
      bind (print_numbered 1 commands) (fun _ =>
      bind (gum_choose w commands "Choose a command to execute:")
           (fun choice =>
      if String.eqb choice "Don't run a command"
      then print "No command executed."
      else
        let selected_command := choice in
        bind (handle_command_execution w selected_command history
                system_info)
             (fun _ => ret tt))))
  end).

End Presenter.

(** ** The mock clients of the backends *)

Module mocks.

Import backends.

(** [messages[-1]["content"] if messages else ""] *)
Definition last_content (messages : list message) : string :=
  match List.rev messages with
  | [] => EmptyString
  | m :: _ => content m
  end.

(** gpt_backend.py: [MockCompletions.create] *)
Definition gpt_create (messages : list message) : string :=
  let user_message := last_content messages in
  if str_in "help" (lower user_message)
  then "I'm here to help! What would you like assistance with?"
  else if str_in "system" (lower user_message)
  then "Here's some system information and assistance based on your query."
  else if str_in "history" (lower user_message)
  then "Based on your terminal history, here are some suggestions."
  else "I understand your request. Here's a helpful response based on the context provided.".

(** claude_backend.py: [MockMessages.create] *)
Definition claude_create (messages : list message) : string :=
  let user_message := last_content messages in
  if str_in "help" (lower user_message)
  then "I'm Claude, here to help! What would you like assistance with?"
  else if str_in "system" (lower user_message)
  then "Based on your system information, here's my analysis and suggestions."
  else if str_in "history" (lower user_message)
  then "Looking at your terminal history, I can provide some helpful insights."
  else "I understand your request. Here's a thoughtful response based on the context provided.".

(** [query] of gpt_backend.py when [client] is the mock. *)
Definition gpt_query (prompt : string) (history : list string)
    (system_info : string) : string :=
  gpt_create (messages (gpt_backend.query_request prompt history system_info)).

(** [query] of claude_backend.py when [client] is the mock. *)
Definition claude_query (prompt : string) (history : list string)
    (system_info : string) : string :=
  claude_create
    (messages (claude_backend.query_request prompt history system_info)).

End mocks.

(** ** utils.py *)

Module utils.

(** A line boundary of [str.splitlines] below code point 256: LF, VT, FF,
    CR, FS, GS, RS and NEL. *)
Definition is_break (c : ascii) : bool :=
  let n := nat_of_ascii c in
  (((10 <=? n) && (n <=? 13)) || ((28 <=? n) && (n <=? 30)) || (n =? 133))
  %nat.

(** [s.splitlines()]: the lines without their boundaries; CR LF is one
    boundary; no empty last line. *)
Fixpoint splitlines (s : string) : list string :=
  match s with
  | EmptyString => []
  | String c r =>
      if is_break c then
        match r with
        | String d r' =>
            if Ascii.eqb c "013" && Ascii.eqb d "010"
            then EmptyString :: splitlines r'
            else EmptyString :: splitlines r
        | EmptyString => [EmptyString]
        end
      else
        match splitlines r with
        | [] => [String c EmptyString]
        | l :: ls => String c l :: ls
        end
  end.

(** [get_terminal_history]: [history_file] is the text that [f.read()]
    returns for [~/.bash_history], or [None] when the file does not
    exist. *)
Definition get_terminal_history (history_file : option string)
  : list string :=
  match history_file with
  | Some text => splitlines text
  | None => []
  end.

Definition ESC : ascii := "027"%char.

Definition between (lo hi : nat) (c : ascii) : bool :=
  ((lo <=? nat_of_ascii c) && (nat_of_ascii c <=? hi))%nat.

(** The classes [[0-?]], [[ -/]] and [[@-~]]. *)
Definition parameter_char : ascii -> bool := between 48 63.
Definition intermediate_char : ascii -> bool := between 32 47.
Definition final_char : ascii -> bool := between 64 126.

(** What is left after the longest run of a class. *)
Fixpoint skip_run (class : ascii -> bool) (s : string) : string :=
  match s with
  | EmptyString => EmptyString
  | String c r => if class c then skip_run class r else s
  end.

(** [\x1B\[[0-?]*[ -/]*[@-~]] at the start of [s]: the text after the
    match.  The runs are greedy; giving characters back never helps,
    since the three classes do not overlap. *)
Definition match_ansi (s : string) : option string :=
  match s with
  | String e (String b r) =>
      if Ascii.eqb e ESC && Ascii.eqb b "["
      then
        match skip_run intermediate_char (skip_run parameter_char r) with
        | String f rest => if final_char f then Some rest else None
        | EmptyString => None
        end
      else None
  | _ => None
  end.

(** [re.sub(pattern, '', s)] for the pattern above: [fuel] bounds the
    number of positions tried. *)
Fixpoint remove_ansi_fuel (fuel : nat) (s : string) : string :=
  match fuel with
  | 0 => EmptyString
  | S fuel' =>
      match match_ansi s with
      | Some rest => remove_ansi_fuel fuel' rest
      | None =>
          match s with
          | EmptyString => EmptyString
          | String c r => String c (remove_ansi_fuel fuel' r)
          end
      end
  end.

Definition remove_ansi (s : string) : string :=
  remove_ansi_fuel (S (String.length s)) s.

(** [get_system_info]: [neofetch] is the output of the command, or
    [None] when running it raises. *)
Definition get_system_info (neofetch : option string) : string :=
  match neofetch with
  | Some output => remove_ansi output
  | None => "System info unavailable"
  end.

(** A control sequence: ESC, the bracket, parameters, intermediates and a
    final character. *)
Definition control_sequence (parameters intermediates : string)
    (final : ascii) : string :=
  String ESC (String "[" (parameters ++ intermediates
                          ++ String final EmptyString)).

(** Tests for the properties: not the escape character; not a line
    boundary. *)
Definition not_escape (c : ascii) : bool := negb (Ascii.eqb c ESC).
Definition not_break (c : ascii) : bool := negb (is_break c).

End utils.

(** ** main.py: main *)

Module Main.

Import config backends GumCommandInterface Presenter utils.

(** What [import <name>_backend as backend_module] ends with: the module
    is loaded, or the import raises [ImportError], or the top level of the
    module raises something else. *)
Inductive import_result : Type :=
| Loaded
| ImportError (text : string)
| ImportRaises (e : exn).

(** What [main] finds when it runs. *)
Record environment : Type := {
  argv : list string;
  config_state : config_file;
  (* reading [~/.bash_history]: the exception of [open] or [read], or
     the text, [None] without the file *)
  history_file : outcome (option string);
  (* the output of [neofetch --stdout], [None] when it cannot be had *)
  neofetch : option string;
  (* what the top level of the module prints while it is imported, such
     as the warning about a missing key *)
  import_prints : backend -> list string;
  import_module : backend -> import_result;
  module_query : backend -> string -> list string -> string -> outcome string;
  user : world;                      (* the user and the operating system *)
  str_of_json : json -> string;      (* [str(backend)] *)
  str_of_exn : exn -> string         (* [str(e)] *)
}.

(** How the process ends: [main] returns, [sys.exit(code)], or an
    exception that nothing catches. *)
Inductive termination : Type :=
| Finished
| SysExit (code : Z)
| Uncaught (e : exn).

(** The chain [backend == "gpt"], [backend == "claude"],
    [backend == "ollama"]. *)
Definition select_backend (backend : json) : option backends.backend :=
  match backend with
  | JString name =>
      if String.eqb name "gpt" then Some Gpt
      else if String.eqb name "claude" then Some Claude
      else if String.eqb name "ollama" then Some Ollama
      else None
  | _ => None
  end.

(** The interface built on the loaded module: its [query] is the
    module's. *)
Definition interface (env : environment) (b : backends.backend) : world := {|
  confirm_answer := confirm_answer (user env);
  choose_answer := choose_answer (user env);
  backend_query := module_query env b;
  bash := bash (user env)
|}.

(** The handler [except Exception as e] of [main]: the message and
    [sys.exit(1)]; an exception that is not an [Exception] goes on. *)
Definition except_Exception (env : environment) (backend : json) (e : exn)
    (t : list event) : termination * list event :=
  if is_Exception e
  then (SysExit 1,
        (t ++ [Printed ("Error querying " ++ str_of_json env backend
                        ++ ": " ++ str_of_exn env e)])%list)
  else (Uncaught e, t).

(** [main]: [get_backend()] and [get_terminal_history()] stand before the
    [try], so their exceptions end the run; [get_system_info()] does not
    raise.  Inside the [try], [sys.exit(1)] follows the message for an
    unknown backend, and the handlers take [ImportError] and every other
    [Exception]. *)
Definition main (env : environment) : termination * list event :=
  if (List.length (argv env) <? 2)%nat
  then (SysExit 1, [Printed "Usage: davidgnome <your query>"])
  else
    let prompt := join " " (tl (argv env)) in
    match get_backend (config_state env) with
    | Raises e => (Uncaught e, [])
    | Returns backend =>
    match history_file env with
    | Raises e => (Uncaught e, [])
    | Returns file =>
        let terminal_history := get_terminal_history file in
        let system_info := get_system_info (neofetch env) in
        match select_backend backend with
        | None =>
            (SysExit 1,
             [Printed ("Unknown backend: " ++ str_of_json env backend)])
        | Some b =>
            let t := map Printed (import_prints env b) in
            match import_module env b with
            | ImportError text =>
                (SysExit 1,
                 (t ++ [Printed ("Error importing backend '"
                                 ++ str_of_json env backend ++ "': "
                                 ++ text)])%list)
            | ImportRaises e => except_Exception env backend e t
            | Loaded =>
                match module_query env b prompt terminal_history
                        system_info with
                | Raises e =>
                    except_Exception env backend e
                      (t ++ [Queried prompt])%list
                | Returns response =>
                    match process_ai_response (interface env b) response
                            terminal_history system_info
                            (t ++ [Queried prompt])%list with
                    | (Returns _, t') => (Finished, t')
                    | (Raises e, t') => except_Exception env backend e t'
                    end
                end
            end
        end
    end
    end.

End Main.

(** ** The gate, dialog by dialog *)

Module GateScript.

Import Regex CommandClassifier GumCommandInterface.

Definition safe_message (command : string) : string :=
  "Run safe command: " ++ command ++ "?".

Definition sudo_message (command : string) : string :=
  WARNING ++ "  This command requires elevated privileges: " ++ command
  ++ nl ++ "Proceed?".

Definition unknown_message (command : string) : string :=
  WARNING ++ "  Unknown command classification: " ++ command ++ nl
  ++ "Proceed with caution?".

Definition danger_options : list string :=
  [ SIREN ++ " Explain risks first";
    LOCK ++ " I understand the risks, proceed anyway";
    CROSS ++ " Cancel" ].

Definition danger_header (command : string) : string :=
  WARNING ++ "  DANGEROUS COMMAND DETECTED: " ++ command.

Definition risk_prompt (command : string) : string :=
  "Explain the potential risks and dangers of running this command: '"
  ++ command ++ "'. What could go wrong? What precautions should be taken?".

Definition risk_report (risks : string) : string :=
  nl ++ SIREN ++ " RISK ANALYSIS:" ++ nl ++ risks ++ nl.

Definition risks_message : string :=
  "After reading the risks, do you still want to proceed?".

Definition proceed_message : string :=
  "Are you sure you want to proceed with this dangerous command?".

(** A confirmation and what follows it: the execution after a "yes",
    [False] after a "no". *)
Definition confirm_branch (w : world) (message command : string)
    (t : list event) : outcome bool * list event :=
  match confirm_answer w message with
  | Returns true =>
      execute_command w command (t ++ [Confirmed message true])%list
  | Returns false => (Returns false, (t ++ [Confirmed message false])%list)
  | Raises e => (Raises e, (t ++ [Interrupted message e])%list)
  end.

(** What the gate prints first. *)
Definition heading (command : string) : list event :=
  [ Printed (nl ++ CLIPBOARD ++ " Command: " ++ command);
    Printed (MAGNIFIER ++ " Classification: " ++ classify_command command) ].

(** The gate as a decision tree over the answers. *)
Definition gate_tree (w : world) (command : string) (history : list string)
    (system_info : string) : outcome bool * list event :=
  let cl := classify_command command in
  let t0 := heading command in
  if String.eqb cl "safe" then
    confirm_branch w (safe_message command) command t0
  else if String.eqb cl "sudo" then
    confirm_branch w (sudo_message command) command t0
  else if String.eqb cl "dangerous" then
    match chosen w danger_options (danger_header command) with
    | Raises e =>
        (Raises e, (t0 ++ [Interrupted (danger_header command) e])%list)
    | Returns choice =>
        let t1 :=
          (t0 ++ [Chose (danger_options ++ [EXIT_OPTION])
                        (danger_header command) choice])%list in
        if truthy choice && startswith choice SIREN then
          match backend_query w (risk_prompt command) history
                  system_info with
          | Returns risks =>
              confirm_branch w risks_message command
                ((t1 ++ [Queried (risk_prompt command)])
                 ++ [Printed (risk_report risks)])%list
          | Raises e =>
              (Raises e, (t1 ++ [Queried (risk_prompt command)])%list)
          end
        else if truthy choice && startswith choice LOCK then
          confirm_branch w proceed_message command t1
        else (Returns false, t1)
    end
  else
    confirm_branch w (unknown_message command) command t0.

Definition is_spawn (e : event) : bool :=
  match e with Spawned _ => true | _ => false end.

Definition is_dialog (e : event) : bool :=
  match e with
  | Confirmed _ _ | Chose _ _ _ | Interrupted _ _ => true
  | _ => false
  end.

Definition is_print (e : event) : bool :=
  match e with Printed _ => true | _ => false end.

(** A run that starts after the events [t]. *)
Definition after {A : Type} (t : list event)
    (run : outcome A * list event) : outcome A * list event :=
  (fst run, (t ++ snd run)%list).

(** A computation that only appends to the trace it is given. *)
Definition appends {A : Type} (m : io A) : Prop :=
  forall t, m t = after t (m []).

(** The result of the gate is dropped by the presenter. *)
Definition forget (run : outcome bool * list event)
  : outcome unit * list event :=
  match run with
  | (Returns _, t) => (Returns tt, t)
  | (Raises e, t) => (Raises e, t)
  end.

Definition choose_header : string := "Choose a command to execute:".

(** What the presenter prints before the menu. *)
Definition listing (response : string) (commands : list string)
  : list event :=
  Printed response
  :: Printed (nl ++ MAGNIFIER ++ " Found "
              ++ Presenter.str_of_nat (List.length commands)
              ++ " command(s) in response:")
  :: map (fun line => Printed ("  " ++ line))
         (Presenter.numbered 1 commands).

(** The presenter as a decision tree over the answers. *)
Definition presenter_tree (w : world) (response : string)
    (history : list string) (system_info : string)
  : outcome unit * list event :=
  let commands := CommandExtractor.extract_commands response in
  match commands with
  | [] =>
      (Returns tt,
       [ Printed response;
         Printed (nl ++ "No executable commands found in the response.") ])
  | _ :: _ =>
      match chosen w commands choose_header with
      | Raises e =>
          (Raises e,
           (listing response commands ++ [Interrupted choose_header e])%list)
      | Returns choice =>
          let t :=
            (listing response commands
             ++ [Chose (commands ++ [EXIT_OPTION]) choose_header choice])
            %list in
          if String.eqb choice EXIT_OPTION
          then (Returns tt, (t ++ [Printed "No command executed."])%list)
          else after t (forget (gate w choice history system_info))
      end
  end.


(** Picks the first command offered and says yes. *)
Definition eager_user : world := {|
  confirm_answer := fun _ => Returns true;
  choose_answer := fun options _ => Returns (hd EmptyString options);
  backend_query := fun _ _ _ => Returns "It lists files.";
  bash := fun _ => Completed 0 "total 0" ""
|}.

(** Picks the first command offered; the input ends at the
    confirmation. *)
Definition absent_user : world := {|
  confirm_answer := fun _ => Raises EOFError;
  choose_answer := fun options _ => Returns (hd EmptyString options);
  backend_query := fun _ _ _ => Returns "It lists files.";
  bash := fun _ => Completed 0 "" ""
|}.

(** Picks the exit option of every menu. *)
Definition reluctant_user : world := {|
  confirm_answer := fun _ => Returns true;
  choose_answer := fun _ _ => Returns EXIT_OPTION;
  backend_query := fun _ _ _ => Returns "It lists files.";
  bash := fun _ => Completed 0 "" ""
|}.

End GateScript.

(** ** Environments for the scenarios of [main] *)

Module Environments.

Import Regex config GumCommandInterface GateScript Main.

Definition show_json (value : json) : string :=
  match value with
  | JString text => text
  | _ => "<value>"
  end.

Definition show_exn (e : exn) : string :=
  match e with
  | BackendError msg => msg
  | _ => "<error>"
  end.

(** The environment [env] with another outcome of neofetch. *)
Definition with_neofetch (env : environment) (output : option string)
  : environment := {|
  argv := argv env;
  config_state := config_state env;
  history_file := history_file env;
  neofetch := output;
  import_prints := import_prints env;
  import_module := import_module env;
  module_query := module_query env;
  user := user env;
  str_of_json := str_of_json env;
  str_of_exn := str_of_exn env
|}.

(** A prompt, no config file, every module at hand, a reply with one
    inline command, and a user who takes it. *)
Definition working : environment := {|
  argv := ["davidgnome"; "list"; "files"];
  config_state := Absent;
  history_file := Returns (Some ("cd /tmp" ++ nl));
  neofetch := Some "OS: Ubuntu";
  import_prints := fun _ => [];
  import_module := fun _ => Loaded;
  module_query := fun _ _ _ _ => Returns "Try `ls -la` there.";
  user := eager_user;
  str_of_json := show_json;
  str_of_exn := show_exn
|}.

(** The same without a prompt on the command line. *)
Definition no_prompt : environment := {|
  argv := ["davidgnome"];
  config_state := config_state working;
  history_file := history_file working;
  neofetch := neofetch working;
  import_prints := import_prints working;
  import_module := import_module working;
  module_query := module_query working;
  user := user working;
  str_of_json := show_json;
  str_of_exn := show_exn
|}.

(** The same with a config file that is not JSON. *)
Definition broken_config : environment := {|
  argv := argv working;
  config_state := Malformed "{";
  history_file := history_file working;
  neofetch := neofetch working;
  import_prints := import_prints working;
  import_module := import_module working;
  module_query := module_query working;
  user := user working;
  str_of_json := show_json;
  str_of_exn := show_exn
|}.

(** The same with a history file that cannot be read. *)
Definition unreadable_history : environment := {|
  argv := argv working;
  config_state := config_state working;
  history_file := Raises OSError;
  neofetch := neofetch working;
  import_prints := import_prints working;
  import_module := import_module working;
  module_query := module_query working;
  user := user working;
  str_of_json := show_json;
  str_of_exn := show_exn
|}.

(** The same with a user whose input ends at the confirmation. *)
Definition input_ends : environment := {|
  argv := argv working;
  config_state := config_state working;
  history_file := history_file working;
  neofetch := neofetch working;
  import_prints := import_prints working;
  import_module := import_module working;
  module_query := module_query working;
  user := absent_user;
  str_of_json := show_json;
  str_of_exn := show_exn
|}.

End Environments.

(** ** Facts about the string primitives *)

Section StringFacts.

Lemma append_empty_r (s : string) : s ++ "" = s.
Proof. induction s as [|c s IH]; simpl; [reflexivity | now rewrite IH]. Qed.

Lemma append_assoc (a b c : string) : (a ++ b) ++ c = a ++ b ++ c.
Proof. induction a as [|x a IH]; simpl; [reflexivity | now rewrite IH]. Qed.

Lemma startswith_append (p rest : string) : startswith (p ++ rest) p = true.
Proof.
  induction p as [|c p IH]; simpl; [reflexivity|].
  now rewrite Ascii.eqb_refl, IH.
Qed.

Lemma startswith_spec (s p : string) :
  startswith s p = true <-> exists rest, s = p ++ rest.
Proof.
  split.
  - revert s; induction p as [|c p IH]; intros s H.
    + now exists s.
    + destruct s as [|d s]; simpl in H; [discriminate|].
      apply andb_true_iff in H as [Hc Hp].
      apply Ascii.eqb_eq in Hc; subst d.
      destruct (IH _ Hp) as [rest ->]. now exists rest.
  - intros [rest ->]. apply startswith_append.
Qed.

Lemma str_in_startswith (sub s : string) :
  startswith s sub = true -> str_in sub s = true.
Proof. intros H; destruct s; simpl; now rewrite H. Qed.

Lemma str_in_spec (sub s : string) : str_in sub s = true <-> occurs sub s.
Proof.
  split.
  - induction s as [|c s IH]; simpl; intros H.
    + rewrite orb_false_r in H. apply startswith_spec in H as [rest H].
      exists "", rest. exact H.
    + apply orb_true_iff in H as [H|H].
      * apply startswith_spec in H as [rest H]. exists "", rest. exact H.
      * destruct (IH H) as (pre & post & ->).
        exists (String c pre), post. reflexivity.
  - intros (pre & post & ->).
    induction pre as [|c pre IH]; simpl.
    + apply str_in_startswith, startswith_append.
    + rewrite IH. apply orb_true_r.
Qed.

Lemma existsb_str_in (pats : list string) (s : string) :
  existsb (fun p => str_in p s) pats = true <->
  exists p, In p pats /\ occurs p s.
Proof.
  rewrite existsb_exists. split; intros (p & Hin & H); exists p;
    (split; [exact Hin | now apply str_in_spec]).
Qed.

Lemma existsb_startswith (pats : list string) (s : string) :
  existsb (fun p => startswith s p) pats = true <->
  exists p, In p pats /\ exists rest, s = p ++ rest.
Proof.
  rewrite existsb_exists. split; intros (p & Hin & H); exists p;
    (split; [exact Hin | now apply startswith_spec]).
Qed.

Lemma none_str_in (pats : list string) (s : string) :
  existsb (fun p => str_in p s) pats = false <->
  forall p, In p pats -> ~ occurs p s.
Proof.
  split.
  - intros E p Hin Hocc.
    assert (T : existsb (fun p => str_in p s) pats = true)
      by (apply existsb_str_in; eauto).
    congruence.
  - intros H. destruct (existsb _ pats) eqn:E; [|reflexivity].
    apply existsb_str_in in E as (p & Hin & Hocc). now destruct (H p Hin).
Qed.

End StringFacts.

(** ** Facts about [strip] and [split] *)

Module StripFacts.

Import Regex.

Lemma rstrip_snoc_space (s : string) (c : ascii) :
  is_space c = true -> rstrip (s ++ String c "") = rstrip s.
Proof.
  intros Hc. induction s as [|x s IH]; simpl.
  - now rewrite Hc.
  - now rewrite IH.
Qed.

Lemma rstrip_decomp (s : string) :
  exists w, all_chars is_space w = true /\ s = rstrip s ++ w.
Proof.
  induction s as [|x s (w & Hw & E)]; simpl.
  - now exists "".
  - destruct (rstrip s) as [|y r'] eqn:R.
    + destruct (is_space x) eqn:Hx.
      * exists (String x w). simpl in *. rewrite Hx, Hw. now rewrite E at 1.
      * exists w. split; [exact Hw|]. simpl. now f_equal.
    + exists w. split; [exact Hw|]. simpl. now f_equal.
Qed.

Lemma lstrip_decomp (s : string) :
  exists w, all_chars is_space w = true /\ s = w ++ lstrip s.
Proof.
  induction s as [|x s (w & Hw & E)]; simpl.
  - now exists "".
  - destruct (is_space x) eqn:Hx.
    + exists (String x w). simpl. rewrite Hx, Hw. split; [reflexivity|].
      now f_equal.
    + now exists "".
Qed.

Lemma occurs_strip (s : string) : occurs (strip s) s.
Proof.
  destruct (rstrip_decomp s) as (w2 & _ & E2).
  destruct (lstrip_decomp (rstrip s)) as (w1 & _ & E1).
  exists w1, w2. unfold strip. rewrite E2 at 1. rewrite E1 at 1.
  now rewrite append_assoc.
Qed.

Lemma lstrip_idem (s : string) : lstrip (lstrip s) = lstrip s.
Proof.
  induction s as [|x s IH]; simpl; [reflexivity|].
  destruct (is_space x) eqn:Hx; [exact IH|]. simpl. now rewrite Hx.
Qed.

Lemma rstrip_idem (s : string) : rstrip (rstrip s) = rstrip s.
Proof.
  induction s as [|x s IH]; simpl; [reflexivity|].
  destruct (rstrip s) as [|y r'] eqn:R.
  - destruct (is_space x) eqn:Hx; simpl; [reflexivity | now rewrite Hx].
  - cbn [rstrip]. cbn [rstrip] in IH. now rewrite IH.
Qed.

Lemma strip_cons_space (c : ascii) (s : string) :
  is_space c = true -> strip (String c s) = strip s.
Proof.
  intros Hc. unfold strip. simpl.
  destruct (rstrip s) as [|y r']; simpl; now rewrite Hc.
Qed.

Lemma rstrip_lstrip (s : string) : rstrip (lstrip s) = lstrip (rstrip s).
Proof.
  induction s as [|x s IH]; [reflexivity|].
  destruct (is_space x) eqn:Hx.
  - change (lstrip (rstrip (String x s))) with (strip (String x s)).
    rewrite (strip_cons_space _ _ Hx). simpl. now rewrite Hx.
  - simpl. rewrite Hx. cbn [rstrip].
    destruct (rstrip s); simpl; now rewrite Hx.
Qed.

Lemma strip_idem (s : string) : strip (strip s) = strip s.
Proof.
  unfold strip. now rewrite rstrip_lstrip, rstrip_idem, lstrip_idem.
Qed.

Lemma strip_snoc_space (s : string) (c : ascii) :
  is_space c = true -> strip (s ++ String c "") = strip s.
Proof. intros Hc. unfold strip. now rewrite rstrip_snoc_space. Qed.

Lemma all_chars_append (P : ascii -> bool) (a b : string) :
  all_chars P (a ++ b) = all_chars P a && all_chars P b.
Proof.
  induction a as [|x a IH]; simpl; [reflexivity|].
  now rewrite IH, andb_assoc.
Qed.

Lemma all_chars_occurs (P : ascii -> bool) (c s : string) :
  occurs c s -> all_chars P s = true -> all_chars P c = true.
Proof.
  intros (pre & post & ->). rewrite !all_chars_append.
  intros H. apply andb_true_iff in H as [_ H].
  now apply andb_true_iff in H as [H _].
Qed.

Lemma occurs_trans (a b c : string) : occurs a b -> occurs b c -> occurs a c.
Proof.
  intros (p1 & q1 & ->) (p2 & q2 & ->).
  exists (p2 ++ p1), (q1 ++ q2). now rewrite !append_assoc.
Qed.

Lemma split_nl_nonempty (s : string) : split_nl s <> [].
Proof.
  induction s as [|x s IH]; simpl; [discriminate|].
  destruct (Ascii.eqb x "010"); [discriminate|].
  destruct (split_nl s); discriminate.
Qed.

Lemma split_nl_no_newline (s l : string) :
  In l (split_nl s) -> all_chars not_newline l = true.
Proof.
  revert l; induction s as [|x s IH]; simpl; intros l.
  - intros [<-|[]]. reflexivity.
  - destruct (Ascii.eqb x "010") eqn:Hx.
    + intros [<-|H]; [reflexivity | now apply IH].
    + destruct (split_nl s) as [|l0 ls].
      * intros [<-|[]]. simpl. unfold not_newline. now rewrite Hx.
      * intros [<-|H].
        -- simpl. unfold not_newline at 1. rewrite Hx. simpl.
           apply IH. now left.
        -- apply IH. now right.
Qed.

Lemma split_nl_head (s l0 : string) (ls : list string) :
  split_nl s = l0 :: ls -> exists post, s = l0 ++ post.
Proof.
  revert l0 ls; induction s as [|x s IH]; simpl; intros l0 ls.
  - intros [= <- _]. now exists "".
  - destruct (Ascii.eqb x "010").
    + intros [= <- _]. now exists (String x s).
    + destruct (split_nl s) as [|l1 ls1].
      * intros [= <- _]. now exists s.
      * intros [= <- _]. destruct (IH _ _ eq_refl) as [post ->].
        now exists post.
Qed.

Lemma split_nl_occurs (s l : string) : In l (split_nl s) -> occurs l s.
Proof.
  revert l; induction s as [|x s IH]; simpl; intros l.
  - intros [<-|[]]. now exists "", "".
  - destruct (Ascii.eqb x "010").
    + intros [<-|H].
      * now exists "", (String x s).
      * destruct (IH _ H) as (pre & post & ->).
        now exists (String x pre), post.
    + destruct (split_nl s) as [|l0 ls] eqn:E.
      * now destruct (split_nl_nonempty s).
      * intros [<-|H].
        -- destruct (split_nl_head _ _ _ E) as [post ->].
           now exists "", post.
        -- destruct (IH _ (or_intror H)) as (pre & post & ->).
           now exists (String x pre), post.
Qed.

End StripFacts.

(** ** Facts about the matchers and [findall] *)

Module RegexFacts.

Import Regex.

Lemma length_append (a b : string) :
  String.length (a ++ b) = String.length a + String.length b.
Proof. induction a as [|c a IH]; simpl; [reflexivity | now rewrite IH]. Qed.

Lemma strip_prefix_spec (p s r : string) :
  strip_prefix p s = Some r <-> s = p ++ r.
Proof.
  revert s; induction p as [|a p IH]; intros s; simpl.
  - split; [now intros [= ->] | now intros ->].
  - destruct s as [|b s]; [split; discriminate|].
    destruct (Ascii.eqb_spec a b) as [->|Hne].
    + rewrite IH. split; [now intros -> | now intros [= ->]].
    + split; [discriminate | intros [= E _]; now destruct Hne].
Qed.

Lemma strip_prefix_append (p r : string) : strip_prefix p (p ++ r) = Some r.
Proof. now apply strip_prefix_spec. Qed.

Lemma until_fence_sound (s body rest : string) :
  until_fence s = Some (body, rest) -> s = body ++ fence ++ rest.
Proof.
  revert body rest; induction s as [|c s IH]; intros body rest.
  - simpl. discriminate.
  - cbn [until_fence].
    destruct (strip_prefix fence (String c s)) as [r|] eqn:E.
    + intros [= <- <-]. now apply strip_prefix_spec in E.
    + destruct (until_fence s) as [[b r]|]; [|discriminate].
      intros [= <- <-]. simpl. f_equal. now apply IH.
Qed.

Lemma take_run_sound (s : string) :
  s = fst (take_run s) ++ snd (take_run s).
Proof.
  induction s as [|c s IH]; simpl; [reflexivity|].
  destruct (inline_char c); [|reflexivity].
  destruct (take_run s) as [run rest]; simpl in *. now f_equal.
Qed.

Lemma try_tags_shrinks (tags : list string) (s body rest : string) :
  try_tags tags s = Some (body, rest) ->
  String.length rest < String.length s.
Proof.
  induction tags as [|t ts IH]; simpl; [discriminate|].
  destruct (strip_prefix (t ++ nl) s) as [r|] eqn:E.
  - destruct (until_fence r) as [[b r']|] eqn:U.
    + intros [= <- <-]. apply strip_prefix_spec in E.
      apply until_fence_sound in U. subst s r.
      rewrite !length_append. simpl. lia.
    + exact IH.
  - exact IH.
Qed.

Lemma match_code_block_shrinks : shrinking match_code_block.
Proof.
  intros s body rest. unfold match_code_block.
  destruct (strip_prefix fence s) as [r|] eqn:E; [|discriminate].
  intros H. apply try_tags_shrinks in H.
  apply strip_prefix_spec in E. subst s. rewrite length_append. lia.
Qed.

Lemma match_inline_shrinks : shrinking match_inline.
Proof.
  intros s span rest. unfold match_inline.
  destruct s as [|c r]; [discriminate|].
  destruct (Ascii.eqb c backtick); [|discriminate].
  pose proof (take_run_sound r) as E.
  destruct (take_run r) as [[|x run] [|d rest']]; try discriminate.
  destruct (Ascii.eqb d backtick); [|discriminate].
  intros [= <- <-]. simpl in E. rewrite E. simpl.
  rewrite length_append. simpl. lia.
Qed.

Section Findall.

Variable m : string -> option (string * string).
Hypothesis m_shrinks : shrinking m.

Lemma findall_fuel_irrelevant (f1 f2 : nat) (s : string) :
  String.length s < f1 -> String.length s < f2 ->
  findall_fuel m f1 s = findall_fuel m f2 s.
Proof.
  revert f2 s; induction f1 as [|f1 IH]; intros f2 s H1 H2; [lia|].
  destruct f2 as [|f2]; [lia|]. simpl.
  destruct (m s) as [[g r]|] eqn:E.
  - apply m_shrinks in E. f_equal. apply IH; lia.
  - destruct s as [|c r]; [reflexivity|]. simpl in *. apply IH; lia.
Qed.

(** The recursion equation of [findall]: the fuel never runs out. *)
Lemma findall_eq (s : string) :
  findall m s =
  match m s with
  | Some (group, rest) => group :: findall m rest
  | None =>
      match s with
      | EmptyString => []
      | String _ r => findall m r
      end
  end.
Proof.
  unfold findall at 1. simpl.
  destruct (m s) as [[g r]|] eqn:E.
  - f_equal. pose proof (m_shrinks _ _ _ E).
    apply findall_fuel_irrelevant; lia.
  - destruct s as [|c r]; [reflexivity|].
    apply findall_fuel_irrelevant; simpl; lia.
Qed.

End Findall.

Lemma code_blocks_eq (s : string) :
  findall match_code_block s =
  match match_code_block s with
  | Some (group, rest) => group :: findall match_code_block rest
  | None =>
      match s with
      | EmptyString => []
      | String _ r => findall match_code_block r
      end
  end.
Proof. apply findall_eq, match_code_block_shrinks. Qed.

Lemma inline_commands_eq (s : string) :
  findall match_inline s =
  match match_inline s with
  | Some (group, rest) => group :: findall match_inline rest
  | None =>
      match s with
      | EmptyString => []
      | String _ r => findall match_inline r
      end
  end.
Proof. apply findall_eq, match_inline_shrinks. Qed.

End RegexFacts.

(** ** Facts about the extractor *)

Module ExtractorFacts.

Import Regex CommandExtractor StripFacts RegexFacts.

(** *** The loops as list functions *)

Lemma fold_append_flat_map (A : Type) (f : A -> list string)
    (l : list A) (acc : list string) :
  fold_left (fun acc x => (acc ++ f x)%list) l acc
  = (acc ++ flat_map f l)%list.
Proof.
  revert acc; induction l as [|x l IH]; intros acc; simpl.
  - now rewrite app_nil_r.
  - now rewrite IH, app_assoc.
Qed.

Lemma fold_left_ext (A B : Type) (f g : B -> A -> B) (l : list A) (b : B) :
  (forall b a, f b a = g b a) -> fold_left f l b = fold_left g l b.
Proof.
  intros E. revert b; induction l as [|x l IH]; intros b; simpl;
    [reflexivity | now rewrite E, IH].
Qed.

Lemma line_loop (lines : list string) (acc : list string) :
  fold_left
    (fun commands line =>
       let line := strip line in
       if truthy line && negb (startswith line "#")
       then (commands ++ [line])%list
       else commands)
    lines acc
  = (acc ++ filter keeps_line (map strip lines))%list.
Proof.
  revert acc; induction lines as [|l lines IH]; intros acc;
    cbn [fold_left map filter].
  - now rewrite app_nil_r.
  - change (truthy (strip l) && negb (startswith (strip l) "#"))
      with (keeps_line (strip l)).
    destruct (keeps_line (strip l)); rewrite IH;
      [rewrite <- app_assoc|]; reflexivity.
Qed.

Lemma inline_loop (spans : list string) (acc : list string) :
  fold_left
    (fun commands cmd =>
       let cmd := strip cmd in
       if str_in " " cmd
          && existsb (fun c => startswith cmd c) INLINE_PREFIXES
       then (commands ++ [cmd])%list
       else commands)
    spans acc
  = (acc ++ flat_map inline_command spans)%list.
Proof.
  revert acc; induction spans as [|x spans IH]; intros acc;
    cbn [fold_left flat_map].
  - now rewrite app_nil_r.
  - change (str_in " " (strip x)
            && existsb (fun c => startswith (strip x) c) INLINE_PREFIXES)
      with (keeps_inline (strip x)).
    rewrite IH.
    assert (E : inline_command x
                = if keeps_inline (strip x) then [strip x] else [])
      by reflexivity.
    rewrite E.
    destruct (keeps_inline (strip x)); [rewrite <- app_assoc|]; reflexivity.
Qed.

(** [extract_commands] returns the commands of the fenced blocks, block
    after block, and then the inline commands. *)
Lemma extract_commands_eq (text : string) :
  extract_commands text
  = (flat_map block_commands (findall match_code_block text)
     ++ inline_kept text)%list.
Proof.
  unfold extract_commands, inline_kept. rewrite inline_loop. f_equal.
  rewrite (fold_left_ext _ _ _
             (fun acc b => (acc ++ block_commands b)%list)).
  - now rewrite fold_append_flat_map.
  - intros acc b. apply line_loop.
Qed.

(** *** Fenced regions *)

Lemma fence_free_bool (s : string) :
  fence_free s <-> str_in fence (s ++ "``") = false.
Proof.
  unfold fence_free. rewrite <- str_in_spec.
  destruct (str_in fence (s ++ "``")); split; congruence.
Qed.

Lemma fence_free_cons (c : ascii) (s post : string) :
  fence_free (String c s) ->
  fence_free s /\ strip_prefix fence (String c s ++ fence ++ post) = None.
Proof.
  rewrite !fence_free_bool. cbn -[Ascii.eqb]. intros H.
  apply orb_false_iff in H as [H1 H2]. split.
  - destruct (s ++ "``"); exact H2.
  - clear H2. destruct (Ascii.eqb "`" c); [|reflexivity].
    destruct s as [|x [|y s]]; cbn -[Ascii.eqb] in *; [discriminate| |].
    + destruct (Ascii.eqb "`" x); [discriminate | reflexivity].
    + destruct (Ascii.eqb "`" x); [|reflexivity].
      destruct (Ascii.eqb "`" y); [discriminate | reflexivity].
Qed.

Lemma until_fence_complete (body post : string) :
  fence_free body -> until_fence (body ++ fence ++ post) = Some (body, post).
Proof.
  induction body as [|c body IH]; intros H.
  - reflexivity.
  - destruct (fence_free_cons c body post H) as [H' E].
    change (String c body ++ fence ++ post)
      with (String c (body ++ fence ++ post)) in *.
    cbn [until_fence]. rewrite E. now rewrite (IH H').
Qed.

Lemma try_tags_region (tag body post : string) :
  In tag lang_tags -> fence_free body ->
  try_tags lang_tags (tag ++ nl ++ body ++ fence ++ post)
  = Some (body, post).
Proof.
  intros Htag Hbody. pose proof (until_fence_complete body post Hbody) as U.
  set (X := body ++ fence ++ post) in *. clearbody X.
  simpl in Htag.
  destruct Htag as [<-|[<-|[<-|[<-|[]]]]]; simpl; now rewrite U.
Qed.

Lemma match_code_block_region (tag body post : string) :
  In tag lang_tags -> fence_free body ->
  match_code_block (fenced tag body ++ post) = Some (body, post).
Proof.
  intros Htag Hbody. unfold match_code_block, fenced.
  rewrite !append_assoc, strip_prefix_append.
  now apply try_tags_region.
Qed.

Lemma code_blocks_skip (pre rest : string) :
  fence_free pre ->
  findall match_code_block (pre ++ fence ++ rest)
  = findall match_code_block (fence ++ rest).
Proof.
  induction pre as [|c pre IH]; intros H; [reflexivity|].
  destruct (fence_free_cons c pre rest H) as [H' E].
  rewrite code_blocks_eq. unfold match_code_block. rewrite E.
  simpl. now apply IH.
Qed.

Lemma code_blocks_region (pre tag body post : string) :
  fence_free pre -> In tag lang_tags -> fence_free body ->
  findall match_code_block (pre ++ fenced tag body ++ post)
  = body :: findall match_code_block post.
Proof.
  intros Hpre Htag Hbody.
  pose proof (match_code_block_region tag body post Htag Hbody) as M.
  unfold fenced in *. rewrite !append_assoc in *.
  rewrite code_blocks_skip by exact Hpre.
  rewrite code_blocks_eq. now rewrite M.
Qed.

(** *** Trimming the block first does not change its lines *)

Lemma keeps_line_empty : keeps_line "" = false.
Proof. reflexivity. Qed.

Lemma region_lines_cons_space (c : ascii) (s : string) :
  is_space c = true -> region_lines (String c s) = region_lines s.
Proof.
  intros Hc. unfold region_lines. simpl.
  destruct (Ascii.eqb c "010").
  - reflexivity.
  - destruct (split_nl s) as [|l ls] eqn:E.
    + now destruct (split_nl_nonempty s).
    + cbn [map]. now rewrite (strip_cons_space _ _ Hc).
Qed.

Lemma region_lines_lstrip (s : string) :
  region_lines (lstrip s) = region_lines s.
Proof.
  induction s as [|c s IH]; [reflexivity|]. simpl.
  destruct (is_space c) eqn:Hc; [|reflexivity].
  now rewrite IH, (region_lines_cons_space _ _ Hc).
Qed.

(** Appending a character only changes the last line, or adds an empty
    one. *)
Lemma split_nl_snoc (s : string) (c : ascii) :
  exists ls l,
    split_nl s = (ls ++ [l])%list /\
    split_nl (s ++ String c "")
    = if Ascii.eqb c "010"
      then (ls ++ [l; ""])%list
      else (ls ++ [(l ++ String c "")%string])%list.
Proof.
  induction s as [|x s (ls & l & E1 & E2)].
  - exists [], "". simpl. now destruct (Ascii.eqb c "010").
  - simpl. rewrite E1, E2. destruct (Ascii.eqb x "010").
    + exists ("" :: ls), l. now destruct (Ascii.eqb c "010").
    + destruct ls as [|l0 ls].
      * exists [], (String x l). now destruct (Ascii.eqb c "010").
      * exists (String x l0 :: ls), l. now destruct (Ascii.eqb c "010").
Qed.

Lemma region_lines_snoc_space (s : string) (c : ascii) :
  is_space c = true -> region_lines (s ++ String c "") = region_lines s.
Proof.
  intros Hc. unfold region_lines.
  destruct (split_nl_snoc s c) as (ls & l & -> & ->).
  destruct (Ascii.eqb c "010").
  - rewrite !map_app, !filter_app. cbn [map filter].
    change (strip "") with "". rewrite keeps_line_empty.
    reflexivity.
  - rewrite !map_app, !filter_app. cbn [map filter].
    now rewrite (strip_snoc_space _ _ Hc).
Qed.

Lemma region_lines_append_space (s w : string) :
  all_chars is_space w = true -> region_lines (s ++ w) = region_lines s.
Proof.
  revert s; induction w as [|c w IH]; intros s H.
  - now rewrite append_empty_r.
  - simpl in H. apply andb_true_iff in H as [Hc Hw].
    change (String c w) with (String c "" ++ w).
    rewrite <- append_assoc, (IH _ Hw).
    now apply region_lines_snoc_space.
Qed.

(** The source trims the block before splitting it; the lines kept are
    those of the untrimmed region. *)
Lemma block_commands_region_lines (block : string) :
  block_commands block = region_lines block.
Proof.
  change (block_commands block) with (region_lines (strip block)).
  unfold strip. rewrite region_lines_lstrip.
  destruct (rstrip_decomp block) as (w & Hw & E).
  rewrite E at 2. now rewrite region_lines_append_space.
Qed.

(** *** Inline spans *)



Lemma inline_skip (pre rest : string) :
  all_chars not_backtick pre = true ->
  findall match_inline (pre ++ rest) = findall match_inline rest.
Proof.
  induction pre as [|c pre IH]; intros H; [reflexivity|].
  simpl in H. apply andb_true_iff in H as [Hc Hp].
  rewrite inline_commands_eq. cbn [append match_inline].
  unfold not_backtick in Hc. apply negb_true_iff in Hc. rewrite Hc.
  now apply IH.
Qed.


(** *** The shape of the extracted commands *)

Lemma findall_fuel_In (m : string -> option (string * string))
    (fuel : nat) (s g : string) :
  In g (findall_fuel m fuel s) -> exists s' r, m s' = Some (g, r).
Proof.
  revert s; induction fuel as [|fuel IH]; intros s; simpl; [intros []|].
  destruct (m s) as [[g' r]|] eqn:E.
  - intros [<-|H]; [now exists s, r | now apply (IH r)].
  - destruct s as [|c s']; [intros [] | apply IH].
Qed.

Lemma until_fence_body (s body rest : string) :
  until_fence s = Some (body, rest) -> str_in fence body = false.
Proof.
  revert body rest; induction s as [|c s IH]; intros body rest.
  - simpl. discriminate.
  - cbn [until_fence].
    destruct (strip_prefix fence (String c s)) as [r|] eqn:E.
    + intros [= <- <-]. reflexivity.
    + destruct (until_fence s) as [[b r]|] eqn:U; [|discriminate].
      intros [= <- <-]. cbn [str_in]. rewrite (IH _ _ eq_refl).
      rewrite orb_false_r.
      destruct (startswith (String c b) fence) eqn:P; [|reflexivity].
      apply startswith_spec in P as [z P].
      apply until_fence_sound in U.
      assert (F : strip_prefix fence (String c s) = Some (z ++ fence ++ r)).
      { apply strip_prefix_spec. rewrite U.
        change (String c (b ++ fence ++ r))
          with (String c b ++ fence ++ r).
        rewrite P. now rewrite append_assoc. }
      congruence.
Qed.

Lemma try_tags_body (tags : list string) (s body rest : string) :
  try_tags tags s = Some (body, rest) -> str_in fence body = false.
Proof.
  induction tags as [|t ts IH]; simpl; [discriminate|].
  destruct (strip_prefix (t ++ nl) s) as [r|]; [|exact IH].
  destruct (until_fence r) as [[b r']|] eqn:U; [|exact IH].
  intros [= <- <-]. now apply until_fence_body in U.
Qed.

Lemma code_block_no_fence (text block : string) :
  In block (findall match_code_block text) -> ~ occurs fence block.
Proof.
  intros H. apply findall_fuel_In in H as (s & r & M).
  unfold match_code_block in M.
  destruct (strip_prefix fence s); [|discriminate].
  apply try_tags_body in M. rewrite <- str_in_spec. congruence.
Qed.

Lemma take_run_chars (s : string) :
  all_chars inline_char (fst (take_run s)) = true.
Proof.
  induction s as [|c s IH]; simpl; [reflexivity|].
  destruct (inline_char c) eqn:Hc; [|reflexivity].
  destruct (take_run s) as [run rest]. simpl in *. now rewrite Hc.
Qed.

Lemma match_inline_sound (s span rest : string) :
  match_inline s = Some (span, rest) ->
  s = String backtick (span ++ String backtick rest)
  /\ span <> "" /\ all_chars inline_char span = true.
Proof.
  unfold match_inline. destruct s as [|c r]; [discriminate|].
  destruct (Ascii.eqb_spec c backtick) as [->|]; [|discriminate].
  pose proof (take_run_sound r) as E. pose proof (take_run_chars r) as C.
  destruct (take_run r) as [[|x run] [|d rest']]; try discriminate.
  destruct (Ascii.eqb_spec d backtick) as [->|]; [|discriminate].
  intros [= <- <-]. simpl in E, C. rewrite E.
  repeat split; [discriminate | exact C].
Qed.

Lemma inline_span_chars (text span : string) :
  In span (findall match_inline text) ->
  span <> "" /\ all_chars inline_char span = true.
Proof.
  intros H. apply findall_fuel_In in H as (s & r & M).
  now apply match_inline_sound in M.
Qed.

Lemma all_chars_weaken (P Q : ascii -> bool) (s : string) :
  (forall c, P c = true -> Q c = true) ->
  all_chars P s = true -> all_chars Q s = true.
Proof.
  intros PQ. induction s as [|c s IH]; simpl; [reflexivity|].
  intros H. apply andb_true_iff in H as [Hc Hs].
  now rewrite (PQ _ Hc), (IH Hs).
Qed.

Lemma inline_char_not_backtick (c : ascii) :
  inline_char c = true -> not_backtick c = true.
Proof. unfold inline_char. intros H. now apply andb_true_iff in H. Qed.

Lemma inline_char_not_newline (c : ascii) :
  inline_char c = true -> not_newline c = true.
Proof. unfold inline_char. intros H. now apply andb_true_iff in H. Qed.

Lemma no_backtick_no_fence (c : string) :
  all_chars not_backtick c = true -> ~ occurs fence c.
Proof.
  intros H Hocc.
  pose proof (all_chars_occurs not_backtick _ _ Hocc H). discriminate.
Qed.

Lemma keeps_line_shape (c : string) :
  keeps_line c = true -> c <> "" /\ startswith c "#" = false.
Proof.
  unfold keeps_line. intros H. apply andb_true_iff in H as [T N].
  split; [now destruct c | now apply negb_true_iff in N].
Qed.

Lemma block_command_shape (block c : string) :
  ~ occurs fence block -> In c (block_commands block) -> extracted_shape c.
Proof.
  intros Hb H. unfold block_commands in H.
  apply filter_In in H as [H K]. apply in_map_iff in H as (l & <- & Hl).
  destruct (keeps_line_shape _ K) as [Hne Hash].
  assert (Ocl : occurs (strip l) l) by apply occurs_strip.
  repeat split.
  - exact Hne.
  - apply strip_idem.
  - apply (all_chars_occurs _ _ l Ocl).
    now apply (split_nl_no_newline (strip block)).
  - exact Hash.
  - intros Hf. apply Hb.
    apply (occurs_trans _ (strip l)); [exact Hf|].
    apply (occurs_trans _ l); [exact Ocl|].
    apply (occurs_trans _ (strip block));
      [now apply split_nl_occurs | apply occurs_strip].
Qed.

Lemma inline_prefix_not_comment (c : string) :
  existsb (fun p => startswith c p) INLINE_PREFIXES = true ->
  c <> "" /\ startswith c "#" = false.
Proof.
  intros H. apply existsb_exists in H as (p & Hin & Hp).
  destruct c as [|x c]; [|split; [discriminate|]].
  - simpl in Hin. exfalso.
    repeat (destruct Hin as [<-|Hin]; [discriminate|]). exact Hin.
  - simpl in Hin.
    repeat (destruct Hin as [<-|Hin];
            [ cbn -[Ascii.eqb] in Hp; apply andb_true_iff in Hp as [Hx _];
              apply Ascii.eqb_eq in Hx; subst x; reflexivity |]).
    destruct Hin.
Qed.

Lemma inline_command_shape (span c : string) :
  all_chars inline_char span = true -> In c (inline_command span) ->
  extracted_shape c.
Proof.
  intros Hs H. unfold inline_command in H.
  destruct (keeps_inline (strip span)) eqn:K; [|destruct H].
  destruct H as [<-|[]].
  unfold keeps_inline in K. apply andb_true_iff in K as [_ K].
  destruct (inline_prefix_not_comment _ K) as [Hne Hash].
  pose proof (all_chars_occurs _ _ _ (occurs_strip span) Hs) as Hc.
  repeat split.
  - exact Hne.
  - apply strip_idem.
  - exact (all_chars_weaken _ _ _ inline_char_not_newline Hc).
  - exact Hash.
  - apply no_backtick_no_fence.
    exact (all_chars_weaken _ _ _ inline_char_not_backtick Hc).
Qed.

(** Every command that [extract_commands] returns is trimmed, not empty,
    on one line, not a comment, and contains no fence. *)
Lemma extracted_commands_shape (text c : string) :
  In c (extract_commands text) -> extracted_shape c.
Proof.
  rewrite extract_commands_eq. intros H. apply in_app_or in H as [H|H].
  - apply in_flat_map in H as (b & Hb & Hc).
    apply (block_command_shape b); [|exact Hc].
    now apply (code_block_no_fence text).
  - unfold inline_kept in H. apply in_flat_map in H as (sp & Hsp & Hc).
    apply (inline_command_shape sp); [|exact Hc].
    now apply (inline_span_chars text).
Qed.

(** *** Re-extracting a wrapped command *)

Lemma split_nl_single (c : string) :
  all_chars not_newline c = true -> split_nl c = [c].
Proof.
  induction c as [|x c IH]; [reflexivity|]. simpl. intros H.
  apply andb_true_iff in H as [Hx Hc].
  unfold not_newline in Hx. apply negb_true_iff in Hx.
  now rewrite Hx, (IH Hc).
Qed.

Lemma fence_free_line (c : string) :
  ~ occurs fence c -> fence_free (c ++ nl).
Proof.
  rewrite fence_free_bool, <- str_in_spec. intros H.
  apply not_true_is_false in H. rewrite append_assoc.
  induction c as [|x c IH]; [reflexivity|].
  cbn [str_in] in H. apply orb_false_iff in H as [H1 H2].
  cbn [append str_in]. rewrite (IH H2), orb_false_r.
  clear IH H2. cbn -[Ascii.eqb] in *.
  destruct (Ascii.eqb "`" x); [|reflexivity].
  destruct c as [|y [|z c]]; cbn -[Ascii.eqb] in *.
  - reflexivity.
  - destruct (Ascii.eqb "`" y); reflexivity.
  - exact H1.
Qed.

Lemma block_commands_line (c : string) :
  extracted_shape c -> block_commands (c ++ nl) = [c].
Proof.
  intros (Hne & Hs & Hnl & Hash & _). unfold block_commands.
  unfold nl. rewrite strip_snoc_space by reflexivity.
  rewrite Hs, (split_nl_single _ Hnl). cbn [map filter]. rewrite Hs.
  unfold keeps_line. rewrite Hash. now destruct c.
Qed.

Lemma take_run_line (c t : string) :
  all_chars not_newline c = true ->
  take_run (c ++ nl ++ t)
  = (fst (take_run c), snd (take_run c) ++ nl ++ t).
Proof.
  induction c as [|x c IH]; intros H; [reflexivity|].
  simpl in H. apply andb_true_iff in H as [_ Hc].
  cbn [append take_run]. destruct (inline_char x); [|reflexivity].
  rewrite (IH Hc). now destruct (take_run c).
Qed.

Lemma match_inline_line (c t : string) :
  all_chars not_newline c = true ->
  match_inline (c ++ nl ++ t)
  = match match_inline c with
    | Some (span, rest) => Some (span, rest ++ nl ++ t)
    | None => None
    end.
Proof.
  destruct c as [|x c]; intros H; [reflexivity|].
  simpl in H. apply andb_true_iff in H as [_ Hc].
  cbn [append match_inline]. destruct (Ascii.eqb x backtick); [|reflexivity].
  rewrite (take_run_line _ _ Hc).
  destruct (take_run c) as [[|y run] [|d rest]]; cbn [fst snd append];
    try reflexivity.
  now destruct (Ascii.eqb d backtick).
Qed.

Lemma findall_skip_char (m : string -> option (string * string))
    (x : ascii) (s : string) :
  shrinking m -> m (String x s) = None ->
  findall m (String x s) = findall m s.
Proof. intros Hm E. rewrite (findall_eq m Hm). now rewrite E. Qed.

Lemma inline_scan_line (t c : string) :
  all_chars not_newline c = true ->
  findall match_inline (c ++ nl ++ t)
  = (findall match_inline c ++ findall match_inline (nl ++ t))%list.
Proof.
  remember (String.length c) as n eqn:Hn.
  revert c Hn; induction n as [n IH] using lt_wf_ind; intros c Hn Hc.
  rewrite (inline_commands_eq (c ++ nl ++ t)), (inline_commands_eq c).
  rewrite (match_inline_line _ _ Hc).
  destruct (match_inline c) as [[span rest]|] eqn:M.
  - pose proof (match_inline_shrinks _ _ _ M) as Hlen.
    apply match_inline_sound in M as (E & _ & _).
    cbn [app]. f_equal.
    apply (IH (String.length rest)); [lia | reflexivity |].
    rewrite E in Hc. cbn [all_chars] in Hc.
    apply andb_true_iff in Hc as [_ Hc]. rewrite all_chars_append in Hc.
    apply andb_true_iff in Hc as [_ Hc]. cbn [all_chars] in Hc.
    now apply andb_true_iff in Hc as [_ Hc].
  - destruct c as [|x c].
    + cbn [append app]. symmetry.
      apply findall_skip_char; [exact match_inline_shrinks | reflexivity].
    + cbn [append]. simpl in Hc, Hn.
      apply andb_true_iff in Hc as [_ Hc].
      apply (IH (String.length c)); [lia | reflexivity | exact Hc].
Qed.

Lemma wrap_fenced (c : string) : wrap c = fenced "bash" (c ++ nl).
Proof. unfold wrap, fenced. now rewrite append_assoc. Qed.

Lemma inline_commands_wrap (c : string) :
  all_chars not_newline c = true ->
  findall match_inline (wrap c) = findall match_inline c.
Proof.
  intros Hc. rewrite wrap_fenced. unfold fenced. rewrite !append_assoc.
  cbn [fence append].
  change (nl ++ c ++ nl ++ fence) with (String "010" (c ++ nl ++ fence)).
  do 8 (rewrite findall_skip_char;
        [| exact match_inline_shrinks | reflexivity]).
  rewrite (inline_scan_line _ _ Hc).
  change (findall match_inline (nl ++ fence)) with (@nil string).
  apply app_nil_r.
Qed.

Lemma code_blocks_wrap (c : string) :
  ~ occurs fence c -> findall match_code_block (wrap c) = [(c ++ nl)%string].
Proof.
  intros Hc. rewrite wrap_fenced.
  pose proof (code_blocks_region "" "bash" (c ++ nl) "") as R.
  cbn [append] in R. rewrite append_empty_r in R. rewrite R.
  - reflexivity.
  - apply fence_free_bool. reflexivity.
  - simpl. auto.
  - now apply fence_free_line.
Qed.

(** Re-extracting a wrapped command gives the command, followed by the
    inline commands it contains. *)
Lemma extract_wrap (c : string) :
  extracted_shape c -> extract_commands (wrap c) = c :: inline_kept c.
Proof.
  intros Hc. pose proof Hc as (_ & _ & Hnl & _ & Hf).
  rewrite extract_commands_eq. unfold inline_kept.
  rewrite (inline_commands_wrap _ Hnl), (code_blocks_wrap _ Hf).
  cbn [flat_map]. now rewrite app_nil_r, (block_commands_line _ Hc).
Qed.

Lemma inline_kept_no_backtick (c : string) :
  all_chars not_backtick c = true -> inline_kept c = [].
Proof.
  intros H. unfold inline_kept.
  rewrite <- (append_empty_r c), (inline_skip _ _ H). reflexivity.
Qed.

End ExtractorFacts.

(** ** The extractor's claims *)

Module ExtractorProps.

Import Regex CommandExtractor StripFacts RegexFacts ExtractorFacts.

(** C3, as stated, fails: a fenced line that itself contains an inline
    span passing the inline test comes back with that span appended. *)
Lemma round_trip_counterexample :
  ~ (forall t c : string,
        In c (extract_commands t) ->
        extract_commands ("```bash" ++ nl ++ c ++ nl ++ "```") = [c]).
Proof.
  intros H.
  specialize (H ("```bash" ++ nl ++ "echo `ls -la`" ++ nl ++ "```")
                "echo `ls -la`").
  assert (E : extract_commands
                ("```bash" ++ nl ++ "echo `ls -la`" ++ nl ++ "```")
              = ["echo `ls -la`"; "ls -la"]) by reflexivity.
  rewrite E in H. specialize (H (or_introl eq_refl)). discriminate.
Qed.

(** C3, amended.  Wrapping a returned command in a fenced bash block and
    extracting again yields that command followed by the inline commands
    found inside it; the result is the command alone when it contains no
    backtick. *)
Theorem round_trip (t c : string) :
  In c (extract_commands t) ->
  extract_commands (wrap c) = c :: inline_kept c
  /\ (all_chars not_backtick c = true -> extract_commands (wrap c) = [c]).
Proof.
  intros H. apply extracted_commands_shape in H.
  split.
  - now apply extract_wrap.
  - intros Hb. now rewrite (extract_wrap _ H), (inline_kept_no_backtick _ Hb).
Qed.

Lemma round_trip_witness : extract_commands (wrap "ls -la") = ["ls -la"].
Proof.
  apply (round_trip
           ("Try:" ++ nl ++ "```bash" ++ nl ++ "# list files" ++ nl
            ++ "ls -la" ++ nl ++ "```") "ls -la").
  - vm_compute. left. reflexivity.
  - reflexivity.
Defined.

(** C7, as stated, fails twice: a region opened with a tag other than
    bash, sh or shell is not found; and a region that follows an earlier
    fence is not found, since the scan pairs that fence with the region's
    opening marker. *)
Lemma any_tag_counterexample :
  ~ (forall pre tag body post : string,
        all_chars inline_char tag = true ->
        fence_free pre -> fence_free body ->
        exists rest,
          extract_commands (pre ++ fenced tag body ++ post)
          = (region_lines body ++ rest)%list)
  /\ ~ (forall pre tag body post : string,
          In tag ["bash"; "sh"; "shell"; ""] -> fence_free body ->
          exists rest,
            extract_commands (pre ++ fenced tag body ++ post)
            = (region_lines body ++ rest)%list).
Proof.
  split; intros H.
  - destruct (H "" "python" ("ls -la" ++ nl) "") as [rest E].
    + reflexivity.
    + apply fence_free_bool. reflexivity.
    + apply fence_free_bool. reflexivity.
    + vm_compute in E. discriminate.
  - destruct (H ("```" ++ nl ++ "pwd") "bash" ("ls -la" ++ nl) "")
      as [rest E].
    + simpl. auto.
    + apply fence_free_bool. reflexivity.
    + vm_compute in E. discriminate.
Qed.

(** C7, amended.  For a text that holds a fenced region (an opening fence,
    then bash, sh, shell or nothing, then a newline, then the body up to
    the next fence), with no fence before it, [extract_commands] returns
    the region's lines, trimmed, without the empty ones and those starting
    with [#], in order; the commands of the later regions and the inline
    commands follow. *)
Theorem fenced_region_lines (pre tag body post : string) :
  In tag ["bash"; "sh"; "shell"; ""] ->
  fence_free pre -> fence_free body ->
  extract_commands (pre ++ fenced tag body ++ post)
  = (region_lines body
     ++ flat_map region_lines (findall match_code_block post)
     ++ inline_kept (pre ++ fenced tag body ++ post))%list.
Proof.
  intros Htag Hpre Hbody. rewrite extract_commands_eq.
  rewrite (code_blocks_region _ _ _ _ Hpre Htag Hbody).
  cbn [flat_map]. rewrite block_commands_region_lines, <- app_assoc.
  do 2 f_equal. apply flat_map_ext. intros b.
  apply block_commands_region_lines.
Qed.

Lemma fenced_region_lines_witness :
  extract_commands
    (("Try:" ++ nl)
     ++ fenced "sh" ("# list files" ++ nl ++ "  ls -la " ++ nl ++ nl
                     ++ "pwd" ++ nl)
     ++ (nl ++ "then `cat a.txt`"))
  = ["ls -la"; "pwd"; "cat a.txt"].
Proof.
  refine (eq_trans
            (fenced_region_lines
               ("Try:" ++ nl) "sh"
               ("# list files" ++ nl ++ "  ls -la " ++ nl ++ nl
                ++ "pwd" ++ nl)
               (nl ++ "then `cat a.txt`") _ _ _) _).
  - simpl. auto.
  - apply fence_free_bool. reflexivity.
  - apply fence_free_bool. reflexivity.
  - reflexivity.
Defined.




End ExtractorProps.

(** ** The classifier's tiers *)

Module ClassifierProps.

Import CommandClassifier.

(** C2.  A command whose lower-cased, trimmed form contains a dangerous
    pattern anywhere is classified "dangerous", whatever it starts with. *)
Theorem dangerous_pattern_wins (cmd d : string) :
  In d DANGEROUS_COMMANDS ->
  occurs d (strip (lower cmd)) ->
  classify_command cmd = "dangerous".
Proof.
  intros Hin Hocc. unfold classify_command.
  assert (E : existsb (fun danger => str_in danger (strip (lower cmd)))
                DANGEROUS_COMMANDS = true)
    by (apply existsb_str_in; eauto).
  now rewrite E.
Qed.

Lemma dangerous_pattern_wins_witness :
  classify_command "ls; sudo rm -rf /tmp/x" = "dangerous".
Proof.
  apply (dangerous_pattern_wins "ls; sudo rm -rf /tmp/x" "rm -rf").
  - simpl; auto.
  - exists "ls; sudo ", " /tmp/x". reflexivity.
Defined.

(** C1.  A command whose lower-cased, trimmed form starts with a
    filesystem-mutating verb and contains no dangerous pattern is
    "dangerous" when a protected path occurs anywhere in it, and "sudo"
    when none does. *)
Theorem filesystem_verb_tier (cmd : string) :
  (exists verb, In verb FILESYSTEM_DESTRUCTIVE /\
                exists rest, strip (lower cmd) = verb ++ rest) ->
  (forall d, In d DANGEROUS_COMMANDS -> ~ occurs d (strip (lower cmd))) ->
  ((exists p, In p PROTECTED_PATHS /\ occurs p (strip (lower cmd))) ->
   classify_command cmd = "dangerous") /\
  ((forall p, In p PROTECTED_PATHS -> ~ occurs p (strip (lower cmd))) ->
   classify_command cmd = "sudo").
Proof.
  intros Hverb Hsafe. unfold classify_command.
  apply none_str_in in Hsafe. rewrite Hsafe.
  apply existsb_startswith in Hverb. rewrite Hverb.
  split; intros H.
  - apply existsb_str_in in H. now rewrite H.
  - apply none_str_in in H. now rewrite H.
Qed.

Lemma filesystem_verb_tier_witness :
  classify_command "  MV notes.txt /etc/motd " = "dangerous" /\
  classify_command "cp a.txt b.txt" = "sudo".
Proof.
  split.
  - apply (filesystem_verb_tier "  MV notes.txt /etc/motd ").
    + exists "mv". split; [simpl; auto | now exists " notes.txt /etc/motd"].
    + apply none_str_in. reflexivity.
    + exists "/etc". split; [simpl; auto|].
      exists "mv notes.txt ", "/motd". reflexivity.
  - apply (filesystem_verb_tier "cp a.txt b.txt").
    + exists "cp". split; [simpl; auto | now exists " a.txt b.txt"].
    + apply none_str_in. reflexivity.
    + apply none_str_in. reflexivity.
Defined.

(** C10.  Prefix matching has no word boundary: a command whose
    lower-cased, trimmed form begins with the letters c, a, t and
    contains no dangerous pattern is "safe", whatever follows. *)
Theorem cat_prefix_is_safe (cmd : string) :
  (exists rest, strip (lower cmd) = "cat" ++ rest) ->
  (forall d, In d DANGEROUS_COMMANDS -> ~ occurs d (strip (lower cmd))) ->
  classify_command cmd = "safe".
Proof.
  intros [rest E] Hsafe. unfold classify_command.
  apply none_str_in in Hsafe. rewrite Hsafe, E. reflexivity.
Qed.

Lemma cat_prefix_is_safe_witness :
  classify_command "catastrophe --purge-all" = "safe".
Proof.
  apply (cat_prefix_is_safe "catastrophe --purge-all").
  - now exists "astrophe --purge-all".
  - apply none_str_in. reflexivity.
Defined.

End ClassifierProps.

(** ** The gate's claims *)

Module GateProps.

Import Regex CommandClassifier GumCommandInterface.

(** The events of [execute_command]: the banner and the subprocess first,
    no dialog, and [False] unless the subprocess exits with code 0. *)
Lemma execute_command_run (w : world) (command : string) (t : list event) :
  exists (r : bool) (evs : list event),
    execute_command w command t
    = (Returns r,
       (t ++ Printed (executing_banner command) :: Spawned command :: evs)
       %list)
    /\ (forall e, In e evs -> exists text, e = Printed text)
    /\ (fails (bash w command) -> r = false).
Proof.
  unfold execute_command, print, emit, bind, ret, executing_banner.
  destruct (bash w command) as [err|code out err].
  - eexists _, [_]. cbn. rewrite <- !app_assoc. cbn.
    repeat split.
    intros e [<-|[]]. now eexists.
  - destruct (truthy out), (truthy err); cbn; rewrite <- ?app_assoc; cbn;
      eexists _, _; (split; [reflexivity|]);
      (split; [ intros e He; cbn in He;
                repeat (destruct He as [<-|He]; [now eexists|]); destruct He
              | intros Hf; now apply Z.eqb_neq ]).
Qed.

Lemma confirm_then_execute (w : world) (message command : string)
    (t : list event) :
  bind (gum_confirm w message)
       (fun ok => if ok then execute_command w command else ret false) t
  = match confirm_answer w message with
    | Returns true =>
        execute_command w command (t ++ [Confirmed message true])%list
    | Returns false => (Returns false, (t ++ [Confirmed message false])%list)
    | Raises e => (Raises e, (t ++ [Interrupted message e])%list)
    end.
Proof.
  unfold gum_confirm, bind, emit, ret, raise.
  now destruct (confirm_answer w message) as [[]|e].
Qed.

Lemma not_rejected_app (t evs : list event) :
  ~ rejected t -> (forall e, In e evs -> ~ rejection e) ->
  ~ rejected (t ++ evs).
Proof.
  intros Ht He (e & Hin & Hr). apply in_app_or in Hin as [Hin|Hin].
  - apply Ht. now exists e.
  - now apply (He e).
Qed.

Lemma not_invoked_app (t evs : list event) :
  ~ execute_command_invoked t ->
  (forall e, In e evs -> outside_execute e) ->
  ~ execute_command_invoked (t ++ evs).
Proof.
  intros Ht He (c & [Hin|Hin]); apply in_app_or in Hin as [Hin|Hin].
  - apply Ht. exists c. now left.
  - now apply (He _ Hin c).
  - apply Ht. exists c. now right.
  - exact (He _ Hin).
Qed.

Lemma banner_not_risks (risks c : string) :
  nl ++ SIREN ++ " RISK ANALYSIS:" ++ nl ++ risks ++ nl
  <> executing_banner c.
Proof. unfold executing_banner. cbn. discriminate. Qed.

(** A confirmation followed by the execution: executed after a "yes",
    declined after a "no". *)
Lemma confirm_step (w : world) (message command : string) (t : list event) :
  ~ rejected t -> ~ execute_command_invoked t ->
  forall history system_info,
  gate_end w command history system_info
    (bind (gum_confirm w message)
          (fun ok => if ok then execute_command w command else ret false) t).
Proof.
  intros Hr Hi history system_info. rewrite confirm_then_execute.
  destruct (confirm_answer w message) as [[]|e] eqn:A.
  - left. now exists t, message.
  - right. left. eexists. split; [reflexivity|]. split.
    + apply not_invoked_app; [exact Hi|]. intros e [<-|[]]. exact I.
    + left. now exists message.
  - right. right. exists e, (t ++ [Interrupted message e])%list.
    split; [reflexivity|]. split; [|split].
    + apply not_rejected_app; [exact Hr|]. intros e' [<-|[]]. exact (fun H => H).
    + apply not_invoked_app; [exact Hi|]. intros e' [<-|[]]. exact I.
    + right. left. now exists message.
Qed.

(** The ways in which the gate ends. *)
Lemma gate_cases (w : world) (command : string) (history : list string)
    (system_info : string) :
  gate_end w command history system_info
    (gate w command history system_info).
Proof.
  assert (step : forall message t, ~ rejected t ->
            ~ execute_command_invoked t ->
            gate_end w command history system_info
              (bind (gum_confirm w message)
                    (fun ok => if ok then execute_command w command
                               else ret false) t)).
  { intros message t Hr Hi. now apply confirm_step. }
  unfold gate, handle_command_execution.
  generalize (classify_command command) as cl. intros cl.
  unfold print at 1 2. unfold bind at 1 2. unfold emit at 1 2. cbn [app].
  set (t0 := [Printed (nl ++ CLIPBOARD ++ " Command: " ++ command);
              Printed (MAGNIFIER ++ " Classification: " ++ cl)]).
  assert (R0 : ~ rejected t0).
  { intros (e & [<-|[<-|[]]] & Hr); exact Hr. }
  assert (I0 : ~ execute_command_invoked t0).
  { intros (c & [[H|[H|[]]]|[H|[H|[]]]]); discriminate H. }
  destruct (String.eqb cl "safe"); [now apply step|].
  destruct (String.eqb cl "sudo"); [now apply step|].
  destruct (String.eqb cl "dangerous"); [|now apply step].
  unfold bind at 1. unfold gum_choose.
  set (opts := [SIREN ++ " Explain risks first";
                LOCK ++ " I understand the risks, proceed anyway";
                CROSS ++ " Cancel"]).
  set (hdr := WARNING ++ "  DANGEROUS COMMAND DETECTED: " ++ command).
  destruct (chosen w opts hdr) as [choice|e] eqn:C.
  2: { unfold bind, emit, raise. right. right.
       exists e, (t0 ++ [Interrupted hdr e])%list.
       split; [reflexivity|]. split; [|split].
       - apply not_rejected_app; [exact R0|].
         intros e' [<-|[]]. exact (fun H => H).
       - apply not_invoked_app; [exact I0|]. intros e' [<-|[]]. exact I.
       - right. right. now exists opts, hdr. }
  unfold bind at 1, emit, ret.
  set (t1 := (t0 ++ [Chose (opts ++ [EXIT_OPTION]) hdr choice])%list).
  assert (I1 : ~ execute_command_invoked t1).
  { apply not_invoked_app; [exact I0|]. intros e [<-|[]]. exact I. }
  destruct (truthy choice && startswith choice SIREN) eqn:Ex.
  - assert (R1 : ~ rejected t1).
    { apply andb_true_iff in Ex as [_ Ex].
      apply not_rejected_app; [exact R0|]. intros e [<-|[]] [Hc|Hc];
        rewrite Hc in Ex; discriminate. }
    unfold bind at 1. unfold explain_command_risks, bind, emit.
    set (q := "Explain the potential risks and dangers of running this command: '"
              ++ command
              ++ "'. What could go wrong? What precautions should be taken?").
    assert (R2 : ~ rejected (t1 ++ [Queried q])).
    { apply not_rejected_app; [exact R1|].
      intros e [<-|[]]. exact (fun H => H). }
    assert (I2 : ~ execute_command_invoked (t1 ++ [Queried q])).
    { apply not_invoked_app; [exact I1|]. intros e [<-|[]]. exact I. }
    destruct (backend_query w q history system_info) as [risks|e] eqn:Q.
    + unfold print at 1. unfold emit. apply step.
      * apply not_rejected_app; [exact R2|].
        intros e [<-|[]]. exact (fun H => H).
      * apply not_invoked_app; [exact I2|]. intros e [<-|[]] c.
        apply banner_not_risks.
    + right. right. exists e, (t1 ++ [Queried q])%list.
      split; [reflexivity|]. split; [exact R2|]. split; [exact I2|].
      left. now exists q.
  - destruct (truthy choice && startswith choice LOCK) eqn:Pr.
    + apply step; [|exact I1].
      apply andb_true_iff in Pr as [_ Pr].
      apply not_rejected_app; [exact R0|]. intros e [<-|[]] [Hc|Hc];
        rewrite Hc in Pr; discriminate.
    + right. left. exists t1. split; [reflexivity|]. split; [exact I1|].
      right. now exists opts, hdr, choice.
Qed.

(** C5.  Whatever the tier of the command, if the user rejects at some
    dialog of the gate (a "no" to a confirmation, Cancel or no selection
    at the three-way choice), [handle_command_execution] returns [False]
    and [execute_command] is not entered. *)
Theorem rejection_never_executes (w : world) (command : string)
    (history : list string) (system_info : string) :
  rejected (snd (gate w command history system_info)) ->
  fst (gate w command history system_info) = Returns false
  /\ ~ execute_command_invoked (snd (gate w command history system_info)).
Proof.
  destruct (gate_cases w command history system_info)
    as [(t & m & -> & _ & Hr & _)|[(t & -> & Hi & _)
                                  |(e & t & -> & Hr & _)]].
  - destruct (execute_command_run w command (t ++ [Confirmed m true]))
      as (r & evs & -> & Hevs & _).
    intros H. exfalso. revert H. cbn [snd].
    apply not_rejected_app.
    + apply not_rejected_app; [exact Hr|].
      intros e [<-|[]]. cbn. discriminate.
    + intros e [<-|[<-|He]]; cbn; auto.
      destruct (Hevs _ He) as [text ->]. cbn. auto.
  - intros _. now split.
  - intros H. now destruct Hr.
Qed.

Lemma rejection_never_executes_witness :
  fst (gate Scenarios.cancelling_user "rm -rf /tmp/x" [] "")
  = Returns false
  /\ ~ execute_command_invoked
         (snd (gate Scenarios.cancelling_user "rm -rf /tmp/x" [] "")).
Proof.
  apply rejection_never_executes.
  exists (Chose
            [SIREN ++ " Explain risks first";
             LOCK ++ " I understand the risks, proceed anyway";
             CROSS ++ " Cancel"; EXIT_OPTION]
            (WARNING ++ "  DANGEROUS COMMAND DETECTED: " ++ "rm -rf /tmp/x")
            (CROSS ++ " Cancel")).
  split.
  - vm_compute. right. right. left. reflexivity.
  - left. reflexivity.
Defined.

(** C6, as stated, fails: a run in which the user declines and a run in
    which the approved command fails both return [False]. *)
Lemma decline_and_failure_counterexample :
  ~ (forall (command : string) (w_declined w_failed : world)
            (history : list string) (system_info : string),
        declines_all w_declined ->
        approves_all w_failed -> fails (bash w_failed command) ->
        fst (gate w_declined command history system_info)
        <> fst (gate w_failed command history system_info)).
Proof.
  intros H.
  apply (H "ls nowhere" Scenarios.declining_user
           Scenarios.approving_user_failing_command [] "").
  - split; [intros m; reflexivity | intros o h; now eexists].
  - split; [intros m; reflexivity | intros o h; right; reflexivity].
  - cbn. discriminate.
  - reflexivity.
Qed.

Lemma approved_choice (w : world) (options : list string) (header : string) :
  approves_all w ->
  exists choice,
    chosen w options header = Returns choice
    /\ (truthy choice && startswith choice SIREN = true
        \/ truthy choice && startswith choice LOCK = true).
Proof.
  intros [_ H]. unfold chosen.
  destruct (H (options ++ [EXIT_OPTION])%list header) as [-> | ->];
    eexists; (split; [reflexivity|]); [left | right]; reflexivity.
Qed.

Lemma answered_choice (w : world) (options : list string) (header : string) :
  (forall options header,
      exists choice, choose_answer w options header = Returns choice) ->
  exists choice, chosen w options header = Returns choice.
Proof.
  intros H. unfold chosen.
  destruct (H (options ++ [EXIT_OPTION])%list header) as [c ->].
  now eexists.
Qed.

(** C6, amended.  The return value does not tell a declined command from
    a failed one: when the backend answers, the gate returns [False] both
    when the user declines every confirmation and when the user approves
    and the subprocess cannot be started or exits with a non-zero code.
    The two runs differ in what they do: only the second enters
    [execute_command] and starts the subprocess. *)
Theorem decline_and_failure_both_false (command : string)
    (w_declined w_failed : world) (history : list string)
    (system_info : string) :
  declines_all w_declined -> backend_answers w_declined ->
  approves_all w_failed -> backend_answers w_failed ->
  fails (bash w_failed command) ->
  fst (gate w_declined command history system_info) = Returns false
  /\ fst (gate w_failed command history system_info) = Returns false
  /\ ~ execute_command_invoked
         (snd (gate w_declined command history system_info))
  /\ In (Spawned command) (snd (gate w_failed command history system_info)).
Proof.
  intros Hd Bd Ha Ba Hf.
  assert (D : fst (gate w_declined command history system_info)
              = Returns false
              /\ ~ execute_command_invoked
                     (snd (gate w_declined command history system_info))).
  { destruct Hd as [Hd Hm].
    destruct (gate_cases w_declined command history system_info)
      as [(t & m & _ & A & _)
         |[(t & -> & Hi & _)
          |(e & t & _ & _ & _ & [[q Q]|[[m A]|(o & h & C)]])]].
    - rewrite Hd in A. discriminate.
    - now split.
    - destruct (Bd q history system_info) as [text T]. congruence.
    - rewrite Hd in A. discriminate.
    - destruct (answered_choice w_declined o h Hm) as [c E]. congruence. }
  assert (F : fst (gate w_failed command history system_info)
              = Returns false
              /\ In (Spawned command)
                    (snd (gate w_failed command history system_info))).
  { destruct (gate_cases w_failed command history system_info)
      as [(t & m & -> & _)
         |[(t & _ & _ & [[m A]|(o & h & c & C & E1 & E2)])
          |(e & t & _ & _ & _ & [[q Q]|[[m A]|(o & h & C)]])]].
    - destruct (execute_command_run w_failed command
                  (t ++ [Confirmed m true]))
        as (r & evs & -> & _ & Hr).
      rewrite (Hr Hf). split; [reflexivity|]. cbn [snd].
      apply in_or_app. right. right. now left.
    - destruct Ha as [Ha _]. rewrite Ha in A. discriminate.
    - destruct (approved_choice w_failed o h Ha) as (c' & C' & H).
      assert (c' = c) by congruence. subst c'.
      destruct H; congruence.
    - destruct (Ba q history system_info) as [text T]. congruence.
    - destruct Ha as [Ha _]. rewrite Ha in A. discriminate.
    - destruct (approved_choice w_failed o h Ha) as (c' & C' & _).
      congruence. }
  tauto.
Qed.

Lemma decline_and_failure_both_false_witness :
  fst (gate Scenarios.declining_user "rm -rf /tmp/x" [] "") = Returns false
  /\ fst (gate Scenarios.approving_user_no_bash "rm -rf /tmp/x" [] "")
     = Returns false
  /\ ~ execute_command_invoked
         (snd (gate Scenarios.declining_user "rm -rf /tmp/x" [] ""))
  /\ In (Spawned "rm -rf /tmp/x")
        (snd (gate Scenarios.approving_user_no_bash "rm -rf /tmp/x" [] "")).
Proof.
  apply decline_and_failure_both_false.
  - split; [intros m; reflexivity | intros o h; now eexists].
  - intros q h s. now eexists.
  - split; [intros m; reflexivity | intros o h; left; reflexivity].
  - intros q h s. now eexists.
  - exact I.
Defined.

End GateProps.

(** ** The configuration reader's claim *)

Module ConfigProps.

Import config Main.

Lemma dict_get_missing (members : list (string * json)) (key : string)
    (default : json) :
  (forall v, ~ In (key, v) members) -> dict_get members key default = default.
Proof.
  revert default; induction members as [|[k v] rest IH]; intros default H;
    [reflexivity|].
  simpl. destruct (String.eqb_spec k key) as [->|_].
  - destruct (H v). now left.
  - apply IH. intros v' Hin. apply (H v'). now right.
Qed.

(** C4, as stated, fails: on a file whose text is not JSON, or that cannot
    be opened, [get_backend] raises. *)
Lemma bad_config_counterexample :
  ~ (forall f : config_file,
        f = Absent \/ f = Unreadable \/ (exists text, f = Malformed text) ->
        exists backend, get_backend f = Returns backend).
Proof.
  intros H. destruct (H (Malformed "{")) as [backend E].
  - right. right. now exists "{".
  - discriminate.
Qed.

Lemma dict_get_last (before after : list (string * json)) (key : string)
    (value default : json) :
  (forall v, ~ In (key, v) after) ->
  dict_get (before ++ (key, value) :: after) key default = value.
Proof.
  intros H. revert default.
  induction before as [|[k v] rest IH]; intros default.
  - cbn [app dict_get]. rewrite String.eqb_refl. now apply dict_get_missing.
  - cbn [app dict_get]. destruct (String.eqb k key); apply IH.
Qed.

(** C4, amended.  [get_backend] returns without raising when the config
    file is absent, with "ollama", and when it holds a JSON object, with
    the value of its backend member, the last one if there are several,
    or "ollama" if it has none.  When the file cannot be opened, when its
    text is not JSON or when the JSON value is not an object, the
    exception leaves [get_backend]; and it ends the run, since [main]
    calls [get_backend] before its [try]: with a prompt on the command
    line, [main] ends with that exception uncaught, before it has printed
    anything. *)
Theorem get_backend_outcomes :
  get_backend Absent = Returns (JString "ollama")
  /\ (forall before after value,
        (forall v, ~ In ("backend", v) after) ->
        get_backend (Holds (JObject (before ++ ("backend", value) :: after)))
        = Returns value)
  /\ (forall members,
        (forall v, ~ In ("backend", v) members) ->
        get_backend (Holds (JObject members)) = Returns (JString "ollama"))
  /\ get_backend Unreadable = Raises OSError
  /\ (forall text, get_backend (Malformed text) = Raises JSONDecodeError)
  /\ (forall value,
        (forall members, value <> JObject members) ->
        get_backend (Holds value) = Raises AttributeError)
  /\ (forall env e,
        2 <= List.length (argv env) ->
        get_backend (config_state env) = Raises e ->
        main env = (Uncaught e, [])).
Proof.
  split; [reflexivity|]. split; [|split; [|split; [|split; [|split]]]].
  - intros before after value H. cbn [get_backend exists_ load get].
    f_equal. now apply dict_get_last.
  - intros members H. cbn [get_backend exists_ load get].
    f_equal. now apply dict_get_missing.
  - reflexivity.
  - reflexivity.
  - intros value H. destruct value; try reflexivity. now destruct (H members).
  - intros env e L G. unfold main. apply Nat.ltb_ge in L. now rewrite L, G.
Qed.

Lemma get_backend_outcomes_witness :
  get_backend (Holds (JObject [("backend", JString "gpt"); ("theme", JNull)]))
  = Returns (JString "gpt")
  /\ main Environments.broken_config = (Uncaught JSONDecodeError, []).
Proof.
  destruct get_backend_outcomes as (_ & H & _ & _ & _ & _ & M). split.
  - apply (H [] [("theme", JNull)] (JString "gpt")).
    intros v [E|[]]. discriminate E.
  - apply M; [simpl; lia | reflexivity].
Defined.

End ConfigProps.

(** ** The backends' claim *)

Module BackendProps.

Import prompts backends.

(** C9.  For each of the backends gpt, claude and ollama, the user message
    of the request holds the system information and the last ten entries
    of the history (all of them when there are fewer), joined by commas. *)
Theorem query_embeds_last_ten (b : backend) (prompt : string)
    (history : list string) (system_info : string) :
  exists older recent,
    history = (older ++ recent)%list
    /\ List.length recent = Nat.min 10 (List.length history)
    /\ In {| role := "user";
             content :=
               "Terminal history: " ++ join ", " recent
               ++ lf ++ lf ++ "System: " ++ system_info
               ++ lf ++ lf ++ "Question: " ++ prompt |}
          (messages (query_request b prompt history system_info)).
Proof.
  exists (firstn (List.length history - 10) history),
         (skipn (List.length history - 10) history).
  split; [now rewrite firstn_skipn|]. split.
  - rewrite length_skipn. lia.
  - destruct b; cbn; right; left; reflexivity.
Qed.

End BackendProps.

(** ** More on the classifier *)

Module ClassifierMore.

Import CommandClassifier StripFacts.

Lemma lower_char_idem (c : ascii) : lower_char (lower_char c) = lower_char c.
Proof. destruct c as [[] [] [] [] [] [] [] []]; reflexivity. Qed.

Lemma is_space_lower_char (c : ascii) : is_space (lower_char c) = is_space c.
Proof. destruct c as [[] [] [] [] [] [] [] []]; reflexivity. Qed.

Lemma lower_idem (s : string) : lower (lower s) = lower s.
Proof.
  induction s as [|c s IH]; simpl; [reflexivity|].
  now rewrite lower_char_idem, IH.
Qed.

Lemma lower_append (a b : string) : lower (a ++ b) = lower a ++ lower b.
Proof. induction a as [|c a IH]; simpl; [reflexivity | now rewrite IH]. Qed.

Lemma lower_space (w : string) :
  all_chars is_space w = true -> all_chars is_space (lower w) = true.
Proof.
  induction w as [|c w IH]; simpl; [reflexivity|]. intros H.
  apply andb_true_iff in H as [Hc Hw].
  now rewrite is_space_lower_char, Hc, (IH Hw).
Qed.

Lemma lstrip_append_space (w s : string) :
  all_chars is_space w = true -> lstrip (w ++ s) = lstrip s.
Proof.
  induction w as [|c w IH]; simpl; [reflexivity|]. intros H.
  apply andb_true_iff in H as [Hc Hw]. now rewrite Hc, (IH Hw).
Qed.

Lemma rstrip_append_space (s w : string) :
  all_chars is_space w = true -> rstrip (s ++ w) = rstrip s.
Proof.
  revert s; induction w as [|c w IH]; intros s H.
  - now rewrite append_empty_r.
  - simpl in H. apply andb_true_iff in H as [Hc Hw].
    change (String c w) with (String c "" ++ w).
    rewrite <- append_assoc, (IH _ Hw). now apply rstrip_snoc_space.
Qed.

Lemma strip_padded (w1 s w2 : string) :
  all_chars is_space w1 = true -> all_chars is_space w2 = true ->
  strip (w1 ++ s ++ w2) = strip s.
Proof.
  intros H1 H2. unfold strip.
  rewrite <- !rstrip_lstrip, (lstrip_append_space _ _ H1), !rstrip_lstrip.
  now rewrite (rstrip_append_space _ _ H2).
Qed.

(** The tier depends on the lower-cased, trimmed command only. *)
Lemma classify_by_normal_form (a b : string) :
  strip (lower a) = strip (lower b) ->
  classify_command a = classify_command b.
Proof. intros E. unfold classify_command. now rewrite E. Qed.

(** X1.  The tier of a command does not change when its letters change
    case to lower case, nor when blanks are put around it. *)
Theorem classification_ignores_case_and_padding (cmd w1 w2 : string) :
  all_chars is_space w1 = true -> all_chars is_space w2 = true ->
  classify_command (lower cmd) = classify_command cmd
  /\ classify_command (w1 ++ cmd ++ w2) = classify_command cmd.
Proof.
  intros H1 H2. split; apply classify_by_normal_form.
  - now rewrite lower_idem.
  - rewrite !lower_append. apply strip_padded; now apply lower_space.
Qed.

Lemma classification_ignores_case_and_padding_witness :
  classify_command ("  " ++ "Sudo APT update" ++ String "009" "")
  = classify_command "Sudo APT update".
Proof.
  apply (classification_ignores_case_and_padding
           "Sudo APT update" "  " (String "009" "")); reflexivity.
Defined.

Lemma occurs_prefix (a b s : string) : occurs (a ++ b) s -> occurs a s.
Proof.
  intros (pre & post & ->). exists pre, (b ++ post).
  now rewrite append_assoc.
Qed.

Lemma protected_paths_slash (s : string) :
  existsb (fun path => str_in path s) PROTECTED_PATHS = str_in "/" s.
Proof.
  destruct (str_in "/" s) eqn:E.
  - apply existsb_str_in. exists "/". split; [now left|].
    now apply str_in_spec.
  - apply none_str_in. intros p Hin Hocc.
    assert (occurs "/" s) as Hs.
    { simpl in Hin.
      destruct Hin as [<-|[<-|[<-|[<-|[<-|[<-|[]]]]]]]; try exact Hocc;
        match goal with
        | H : occurs (String "/" ?r) s |- _ =>
            apply (occurs_prefix "/" r); exact H
        end. }
    apply str_in_spec in Hs. congruence.
Qed.

(** X2.  For a command that starts with a filesystem-mutating verb and
    holds no dangerous pattern, the protected-path test is the test for a
    slash: any slash, also of a relative path, makes it "dangerous", and
    without a slash it is "sudo". *)
Theorem filesystem_verb_slash (cmd : string) :
  (exists verb, In verb FILESYSTEM_DESTRUCTIVE /\
                exists rest, strip (lower cmd) = verb ++ rest) ->
  (forall d, In d DANGEROUS_COMMANDS -> ~ occurs d (strip (lower cmd))) ->
  (occurs "/" (strip (lower cmd)) -> classify_command cmd = "dangerous")
  /\ (~ occurs "/" (strip (lower cmd)) -> classify_command cmd = "sudo").
Proof.
  intros Hverb Hsafe. unfold classify_command.
  apply none_str_in in Hsafe. rewrite Hsafe.
  apply existsb_startswith in Hverb. rewrite Hverb.
  rewrite protected_paths_slash. split; intros H.
  - apply str_in_spec in H. now rewrite H.
  - rewrite <- str_in_spec in H. apply not_true_is_false in H.
    now rewrite H.
Qed.

Lemma filesystem_verb_slash_witness :
  classify_command "cp notes.txt ./backup/notes.txt" = "dangerous".
Proof.
  apply (filesystem_verb_slash "cp notes.txt ./backup/notes.txt").
  - exists "cp". split; [simpl; auto|].
    now exists " notes.txt ./backup/notes.txt".
  - apply none_str_in. reflexivity.
  - exists "cp notes.txt .", "backup/notes.txt". reflexivity.
Defined.

Lemma lstrip_length (s : string) :
  String.length (lstrip s) <= String.length s.
Proof.
  induction s as [|c s IH]; simpl; [lia|].
  destruct (is_space c); simpl; lia.
Qed.

Lemma trimmed_ends (m : string) :
  strip m = m -> lstrip m = m /\ rstrip m = m.
Proof.
  intros E. split.
  - rewrite <- E at 1. unfold strip. now rewrite lstrip_idem.
  - rewrite <- E at 1. unfold strip.
    now rewrite rstrip_lstrip, rstrip_idem.
Qed.

Lemma rstrip_keep (m q : string) :
  rstrip m = m -> m <> "" -> rstrip (m ++ q) = m ++ rstrip q.
Proof.
  induction m as [|c m IH]; intros E Hne; [congruence|].
  cbn [append rstrip] in *.
  destruct m as [|d m].
  - cbn [append rstrip] in *. destruct (is_space c); [discriminate|].
    now destruct (rstrip q).
  - destruct (rstrip (String d m)) as [|x r] eqn:R.
    + destruct (is_space c); discriminate.
    + assert (E' : String x r = String d m) by congruence.
      rewrite (IH E') by discriminate. reflexivity.
Qed.

Lemma rstrip_after (p z : string) :
  rstrip z <> "" -> rstrip (p ++ z) = p ++ rstrip z.
Proof.
  intros Hz. induction p as [|c p IH]; [reflexivity|].
  cbn [append rstrip]. rewrite IH.
  destruct (p ++ rstrip z) eqn:E; [|reflexivity].
  destruct p; [now destruct Hz | discriminate].
Qed.

Lemma lstrip_keep (p m r : string) :
  lstrip m = m -> m <> "" -> exists p', lstrip (p ++ m ++ r) = p' ++ m ++ r.
Proof.
  intros E Hne. induction p as [|c p IH].
  - exists "". destruct m as [|x m]; [congruence|].
    cbn [append lstrip] in *. destruct (is_space x); [|reflexivity].
    pose proof (lstrip_length m) as L. rewrite E in L. simpl in L. lia.
  - cbn [append lstrip]. destruct (is_space c); [exact IH|].
    now exists (String c p).
Qed.

(** A trimmed, non-empty part of a text is still a part of the trimmed
    text. *)
Lemma occurs_in_strip (m x : string) :
  strip m = m -> m <> "" -> occurs m x -> occurs m (strip x).
Proof.
  intros E Hne (p & q & ->). destruct (trimmed_ends _ E) as [El Er].
  unfold strip.
  assert (R : rstrip (p ++ m ++ q) = p ++ m ++ rstrip q).
  { rewrite rstrip_after; rewrite (rstrip_keep _ _ Er Hne); [reflexivity|].
    destruct m; [congruence | discriminate]. }
  rewrite R. destruct (lstrip_keep p m (rstrip q) El Hne) as [p' ->].
  now exists p', (rstrip q).
Qed.

Lemma occurs_empty (d : string) : occurs d "" -> d = "".
Proof.
  intros (pre & post & E). destruct pre; [|discriminate].
  destruct d; [reflexivity | discriminate].
Qed.

(** X3.  A dangerous pattern cannot be hidden by text around the
    command: when the pattern occurs in the lower-cased, trimmed command,
    every text that holds the command is "dangerous" too. *)
Theorem danger_survives_wrapping (before cmd after d : string) :
  In d DANGEROUS_COMMANDS ->
  occurs d (strip (lower cmd)) ->
  classify_command (before ++ cmd ++ after) = "dangerous".
Proof.
  intros Hin Hocc.
  assert (O : occurs d (strip (lower (before ++ cmd ++ after)))).
  { destruct (string_dec (strip (lower cmd)) "") as [E|Hne].
    - rewrite E in Hocc. apply occurs_empty in Hocc. subst d.
      now exists "", (strip (lower (before ++ cmd ++ after))).
    - apply (occurs_trans _ (strip (lower cmd))); [exact Hocc|].
      apply occurs_in_strip; [apply strip_idem | exact Hne |].
      apply (occurs_trans _ (lower cmd)); [apply occurs_strip|].
      rewrite !lower_append. now exists (lower before), (lower after). }
  unfold classify_command.
  assert (E : existsb
                (fun danger =>
                   str_in danger (strip (lower (before ++ cmd ++ after))))
                DANGEROUS_COMMANDS = true)
    by (apply existsb_str_in; eauto).
  now rewrite E.
Qed.

Lemma danger_survives_wrapping_witness :
  classify_command ("echo ok && " ++ " RM -RF  build " ++ " ; ls")
  = "dangerous".
Proof.
  apply (danger_survives_wrapping "echo ok && " " RM -RF  build " " ; ls"
                                  "rm -rf").
  - simpl. auto.
  - exists "", "  build". reflexivity.
Defined.

(** X4.  A command gets the lightest tier, "safe", exactly when its
    lower-cased, trimmed form holds no dangerous pattern, starts with no
    filesystem-mutating verb and no privilege verb, and starts with a
    read-only verb; it is "unknown" exactly when no list matches at
    all. *)
Theorem safe_and_unknown_tiers (cmd : string) :
  let s := strip (lower cmd) in
  let holds l := exists p, In p l /\ occurs p s in
  let starts l := exists p, In p l /\ exists rest, s = p ++ rest in
  (classify_command cmd = "safe" <->
   ~ holds DANGEROUS_COMMANDS /\ ~ starts FILESYSTEM_DESTRUCTIVE
   /\ ~ starts SUDO_COMMANDS /\ starts SAFE_COMMANDS)
  /\ (classify_command cmd = "unknown" <->
      ~ holds DANGEROUS_COMMANDS /\ ~ starts FILESYSTEM_DESTRUCTIVE
      /\ ~ starts SUDO_COMMANDS /\ ~ starts SAFE_COMMANDS).
Proof.
  intros s holds starts. unfold classify_command. fold s.
  assert (D : existsb (fun d => str_in d s) DANGEROUS_COMMANDS = true
              <-> holds DANGEROUS_COMMANDS) by apply existsb_str_in.
  assert (F : existsb (fun p => startswith s p) FILESYSTEM_DESTRUCTIVE = true
              <-> starts FILESYSTEM_DESTRUCTIVE) by apply existsb_startswith.
  assert (U : existsb (fun p => startswith s p) SUDO_COMMANDS = true
              <-> starts SUDO_COMMANDS) by apply existsb_startswith.
  assert (A : existsb (fun p => startswith s p) SAFE_COMMANDS = true
              <-> starts SAFE_COMMANDS) by apply existsb_startswith.
  destruct (existsb (fun d => str_in d s) DANGEROUS_COMMANDS).
  { split; (split; [discriminate | intros (H & _); destruct H; now apply D]). }
  destruct (existsb (fun p => startswith s p) FILESYSTEM_DESTRUCTIVE).
  { split; (split;
      [ destruct (existsb _ PROTECTED_PATHS); discriminate
      | intros (_ & H & _); destruct H; now apply F ]). }
  destruct (existsb (fun p => startswith s p) SUDO_COMMANDS).
  { split; (split;
      [discriminate | intros (_ & _ & H & _); destruct H; now apply U]). }
  assert (nD : ~ holds DANGEROUS_COMMANDS)
    by (intros H; apply D in H; discriminate).
  assert (nF : ~ starts FILESYSTEM_DESTRUCTIVE)
    by (intros H; apply F in H; discriminate).
  assert (nU : ~ starts SUDO_COMMANDS)
    by (intros H; apply U in H; discriminate).
  destruct (existsb (fun p => startswith s p) SAFE_COMMANDS).
  - assert (yA : starts SAFE_COMMANDS) by now apply A.
    split; split.
    + intros _. now repeat split.
    + reflexivity.
    + discriminate.
    + intros (_ & _ & _ & H). now destruct H.
  - assert (nA : ~ starts SAFE_COMMANDS)
      by (intros H; apply A in H; discriminate).
    split; split.
    + discriminate.
    + intros (_ & _ & _ & H). now destruct nA.
    + intros _. now repeat split.
    + reflexivity.
Qed.

(** X5.  An empty command, or one made of blanks only, is "unknown". *)
Theorem blank_command_unknown (cmd : string) :
  all_chars is_space cmd = true -> classify_command cmd = "unknown".
Proof.
  intros H.
  assert (E : strip (lower cmd) = strip "").
  { rewrite <- (append_empty_r (lower cmd)).
    change (lower cmd ++ "") with (lower cmd ++ "" ++ "").
    apply strip_padded; [now apply lower_space | reflexivity]. }
  rewrite (classify_by_normal_form cmd "" E). reflexivity.
Qed.

Lemma blank_command_unknown_witness :
  classify_command (String "009" "  ") = "unknown".
Proof. apply blank_command_unknown. reflexivity. Defined.

End ClassifierMore.

(** ** More on the extractor *)

Module ExtractorMore.

Import Regex CommandClassifier CommandExtractor.
Import StripFacts RegexFacts ExtractorFacts ClassifierMore.

Lemma code_blocks_no_backtick (text : string) :
  all_chars not_backtick text = true -> findall match_code_block text = [].
Proof.
  induction text as [|c text IH]; intros H; [reflexivity|].
  simpl in H. apply andb_true_iff in H as [Hc Ht].
  rewrite code_blocks_eq. unfold match_code_block.
  cbn -[Ascii.eqb]. unfold not_backtick, backtick in Hc.
  apply negb_true_iff in Hc. rewrite Ascii.eqb_sym in Hc. rewrite Hc.
  now apply IH.
Qed.

(** X6.  A text without any backtick holds no command. *)
Theorem no_backtick_no_command (text : string) :
  all_chars not_backtick text = true -> extract_commands text = [].
Proof.
  intros H. rewrite extract_commands_eq.
  now rewrite (code_blocks_no_backtick _ H), (inline_kept_no_backtick _ H).
Qed.

Lemma no_backtick_no_command_witness :
  extract_commands "Use ls -la to list the files, then rm -rf build." = [].
Proof. apply no_backtick_no_command. reflexivity. Defined.

(** X7.  A command that [extract_commands] returns is never empty, has
    no blank at either end, stays on one line and does not start with
    [#]. *)
Theorem extracted_command_well_formed (text c : string) :
  In c (extract_commands text) ->
  c <> "" /\ strip c = c /\ all_chars not_newline c = true
  /\ startswith c "#" = false.
Proof.
  intros H. apply extracted_commands_shape in H.
  destruct H as (H1 & H2 & H3 & H4 & _). now repeat split.
Qed.

Lemma extracted_command_well_formed_witness :
  "ls -la" <> "" /\ strip "ls -la" = "ls -la"
  /\ all_chars not_newline "ls -la" = true
  /\ startswith "ls -la" "#" = false.
Proof.
  apply (extracted_command_well_formed
           ("Try:" ++ nl ++ "```bash" ++ nl ++ "# list files" ++ nl
            ++ "  ls -la  " ++ nl ++ "```")).
  vm_compute. left. reflexivity.
Defined.

(** What a matcher finds is a part of the text where it matched, and what
    follows the match is the end of that text. *)
Lemma findall_fuel_occurs (m : string -> option (string * string)) :
  (forall s g r, m s = Some (g, r) -> exists a b, s = a ++ g ++ b ++ r) ->
  forall fuel s g, In g (findall_fuel m fuel s) -> occurs g s.
Proof.
  intros Hm fuel. induction fuel as [|fuel IH]; intros s g; simpl;
    [intros []|].
  destruct (m s) as [[g' r]|] eqn:E.
  - destruct (Hm _ _ _ E) as (a & b & ->). intros [<-|H].
    + now exists a, (b ++ r).
    + destruct (IH _ _ H) as (p & q & ->).
      exists (a ++ g' ++ b ++ p), q. now rewrite !append_assoc.
  - destruct s as [|c s']; [intros []|]. intros H.
    destruct (IH _ _ H) as (p & q & ->). now exists (String c p), q.
Qed.

Lemma try_tags_parts (tags : list string) (s body rest : string) :
  try_tags tags s = Some (body, rest) ->
  exists a, s = a ++ body ++ fence ++ rest.
Proof.
  induction tags as [|t ts IH]; simpl; [discriminate|].
  destruct (strip_prefix (t ++ nl) s) as [r|] eqn:E; [|exact IH].
  destruct (until_fence r) as [[b r']|] eqn:U; [|exact IH].
  intros [= <- <-]. apply strip_prefix_spec in E.
  apply until_fence_sound in U. subst s r. now exists (t ++ nl).
Qed.

Lemma match_code_block_parts (s body rest : string) :
  match_code_block s = Some (body, rest) ->
  exists a b, s = a ++ body ++ b ++ rest.
Proof.
  unfold match_code_block.
  destruct (strip_prefix fence s) as [r|] eqn:E; [|discriminate].
  intros H. apply try_tags_parts in H as [a ->].
  apply strip_prefix_spec in E. subst s.
  exists (fence ++ a), fence. now rewrite append_assoc.
Qed.

Lemma match_inline_parts (s span rest : string) :
  match_inline s = Some (span, rest) ->
  exists a b, s = a ++ span ++ b ++ rest.
Proof.
  intros H. apply match_inline_sound in H as (-> & _).
  now exists "`", "`".
Qed.

(** X8.  [extract_commands] invents nothing: every command it returns
    stands, character for character, in the text. *)
Theorem extracted_command_occurs (text c : string) :
  In c (extract_commands text) -> occurs c text.
Proof.
  rewrite extract_commands_eq. intros H. apply in_app_or in H as [H|H].
  - apply in_flat_map in H as (b & Hb & Hc).
    apply (findall_fuel_occurs _ match_code_block_parts) in Hb.
    unfold block_commands in Hc. apply filter_In in Hc as [Hc _].
    apply in_map_iff in Hc as (l & <- & Hl).
    apply (occurs_trans _ l); [apply occurs_strip|].
    apply (occurs_trans _ (strip b)); [now apply split_nl_occurs|].
    apply (occurs_trans _ b); [apply occurs_strip | exact Hb].
  - unfold inline_kept in H. apply in_flat_map in H as (sp & Hsp & Hc).
    apply (findall_fuel_occurs _ match_inline_parts) in Hsp.
    unfold inline_command in Hc.
    destruct (keeps_inline (strip sp)); [|destruct Hc].
    destruct Hc as [<-|[]].
    apply (occurs_trans _ sp); [apply occurs_strip | exact Hsp].
Qed.

Lemma extracted_command_occurs_witness :
  occurs "rm -rf /"
         ("To wipe it run ` rm -rf / ` (do not do this).").
Proof.
  apply extracted_command_occurs. vm_compute. left. reflexivity.
Defined.

(** X9.  The commands of the fenced regions come first, region after
    region and line after line, and the inline commands follow, span
    after span; nothing is reordered or merged. *)
Theorem fenced_then_inline (text : string) :
  extract_commands text
  = (flat_map region_lines (findall match_code_block text)
     ++ flat_map inline_command (findall match_inline text))%list.
Proof.
  rewrite extract_commands_eq. f_equal. apply flat_map_ext.
  intros b. apply block_commands_region_lines.
Qed.

Lemma lower_lstrip (s : string) : lower (lstrip s) = lstrip (lower s).
Proof.
  induction s as [|c s IH]; [reflexivity|]. simpl.
  rewrite is_space_lower_char. now destruct (is_space c).
Qed.

Lemma lower_rstrip (s : string) : lower (rstrip s) = rstrip (lower s).
Proof.
  induction s as [|c s IH]; [reflexivity|]. simpl.
  rewrite <- IH, is_space_lower_char.
  destruct (rstrip s); simpl; [now destruct (is_space c) | reflexivity].
Qed.

Lemma lower_strip (s : string) : lower (strip s) = strip (lower s).
Proof. unfold strip. now rewrite lower_lstrip, lower_rstrip. Qed.

(** X10.  An inline command is never left unclassified, except when it
    starts with mkdir or touch: the other prefixes of the inline
    allow-list are verbs the classifier knows. *)
Theorem inline_command_tier (span c : string) :
  In c (inline_command span) ->
  classify_command c = "unknown" ->
  startswith c "mkdir" = true \/ startswith c "touch" = true.
Proof.
  unfold inline_command.
  destruct (keeps_inline (strip span)) eqn:K; [|intros []].
  intros [<-|[]] Hu. set (c := strip span) in *.
  unfold keeps_inline in K. apply andb_true_iff in K as [_ K].
  apply existsb_exists in K as (p & Hin & Hp).
  assert (N : strip (lower c) = lower c).
  { rewrite <- lower_strip. unfold c. now rewrite strip_idem. }
  unfold CommandClassifier.classify_command in Hu. rewrite N in Hu.
  pose proof Hp as Hp'. apply startswith_spec in Hp' as [rest E].
  rewrite E, lower_append in Hu.
  set (D := existsb _ CommandClassifier.DANGEROUS_COMMANDS) in Hu.
  set (P := existsb _ CommandClassifier.PROTECTED_PATHS) in Hu.
  clearbody D P.
  simpl in Hin.
  repeat (destruct Hin as [<-|Hin];
          [ first [ left; exact Hp | right; exact Hp
                  | exfalso; cbn in Hu; destruct D; destruct P;
                    discriminate Hu ] |]).
  destruct Hin.
Qed.

Lemma inline_command_tier_witness :
  startswith "touch notes.txt" "mkdir" = true
  \/ startswith "touch notes.txt" "touch" = true.
Proof.
  apply (inline_command_tier " touch notes.txt ").
  - left. reflexivity.
  - reflexivity.
Defined.

End ExtractorMore.

(** ** More on the gate *)

Module GateMore.

Import Regex CommandClassifier GumCommandInterface GateScript GateProps.

(** [execute_command] never raises: it prints its banner, starts the
    subprocess, prints, and returns [True] exactly for the exit code 0. *)
Lemma execute_command_spec (w : world) (command : string) (t : list event) :
  exists (r : bool) (evs : list event),
    execute_command w command t
    = (Returns r,
       (t ++ Printed (executing_banner command) :: Spawned command :: evs)
       %list)
    /\ (forall e, In e evs -> exists text, e = Printed text)
    /\ (r = true <-> exists out err, bash w command = Completed 0 out err).
Proof.
  unfold execute_command, print, emit, bind, ret, executing_banner.
  destruct (bash w command) as [err|code out err].
  - eexists _, [_]. cbn. rewrite <- !app_assoc. cbn.
    split; [reflexivity|]. split.
    + intros e [<-|[]]. now eexists.
    + split; [discriminate | intros (? & ? & ?); discriminate].
  - destruct (truthy out), (truthy err); cbn; rewrite <- ?app_assoc; cbn;
      eexists _, _; (split; [reflexivity|]);
      (split; [ intros e He; cbn in He;
                repeat (destruct He as [<-|He]; [now eexists|]); destruct He
              | rewrite Z.eqb_eq; split;
                [ intros ->; now eexists _, _
                | intros (? & ? & [= -> _ _]); reflexivity ] ]).
Qed.

(** The monadic gate is its decision tree. *)
Lemma gate_is_tree (w : world) (command : string) (history : list string)
    (system_info : string) :
  gate w command history system_info
  = gate_tree w command history system_info.
Proof.
  unfold gate, handle_command_execution, gate_tree, heading.
  generalize (classify_command command) as cl. intros cl.
  unfold print at 1 2. unfold bind at 1 2. unfold emit at 1 2. cbn [app].
  destruct (String.eqb cl "safe"); [apply confirm_then_execute|].
  destruct (String.eqb cl "sudo"); [apply confirm_then_execute|].
  destruct (String.eqb cl "dangerous"); [|apply confirm_then_execute].
  unfold bind at 1. unfold gum_choose.
  fold danger_options. fold (danger_header command).
  destruct (chosen w danger_options (danger_header command)) as [choice|e];
    [|reflexivity].
  unfold bind at 1, emit, ret.
  destruct (truthy choice && startswith choice SIREN).
  - unfold bind at 1. unfold explain_command_risks, bind, emit.
    fold (risk_prompt command).
    destruct (backend_query w (risk_prompt command) history system_info);
      [|reflexivity].
    unfold print at 1. unfold emit. apply confirm_then_execute.
  - destruct (truthy choice && startswith choice LOCK); [|reflexivity].
    apply confirm_then_execute.
Qed.

Ltac gate_leaves :=
  rewrite gate_is_tree; unfold gate_tree, confirm_branch, heading;
  repeat match goal with
  | |- context [String.eqb ?a ?b] => destruct (String.eqb a b) eqn:?
  | |- context [chosen ?w ?o ?h] =>
      let choice := fresh "choice" in
      destruct (chosen w o h) as [choice|?] eqn:?
  | |- context [truthy ?c && startswith ?c ?m] =>
      destruct (truthy c && startswith c m) eqn:?
  | |- context [backend_query ?w ?q ?h ?s] =>
      destruct (backend_query w q h s) eqn:?
  | |- context [confirm_answer ?w ?m] =>
      destruct (confirm_answer w m) as [[]|?] eqn:?
  | |- context [execute_command ?w ?c ?t] =>
      let r := fresh "r" in
      let evs := fresh "evs" in
      let Hevs := fresh "Hevs" in
      let Hr := fresh "Hr" in
      destruct (execute_command_spec w c t) as (r & evs & -> & Hevs & Hr)
  end; cbn [fst snd].

Lemma prints_not_spawned (evs : list event) (c : string) :
  (forall e, In e evs -> exists text, e = Printed text) ->
  ~ In (Spawned c) evs.
Proof. intros H Hin. destruct (H _ Hin) as [text E]. discriminate. Qed.

Lemma prints_not_confirmed (evs : list event) m b :
  (forall e, In e evs -> exists text, e = Printed text) ->
  ~ In (Confirmed m b) evs.
Proof. intros H Hin. destruct (H _ Hin) as [text E]. discriminate. Qed.

Lemma prints_no_spawn (evs : list event) :
  (forall e, In e evs -> exists text, e = Printed text) ->
  filter is_spawn evs = [].
Proof.
  induction evs as [|e evs IH]; intros H; [reflexivity|].
  destruct (H e (or_introl eq_refl)) as [text ->]. cbn.
  apply IH. intros e' He'. apply H. now right.
Qed.

Lemma prints_all (evs : list event) :
  (forall e, In e evs -> exists text, e = Printed text) ->
  forallb is_print evs = true.
Proof.
  intros H. apply forallb_forall. intros e He.
  now destruct (H e He) as [text ->].
Qed.

(** X11.  The gate returns [True] only when the command it was given was
    run, after a "yes", and exited with code 0: the trace holds the "yes",
    then the banner of [execute_command] and the command handed to bash;
    nothing was handed to bash before the "yes", and only printing
    follows. *)
Theorem gate_true_means_success (w : world) (command : string)
    (history : list string) (system_info : string) :
  fst (gate w command history system_info) = Returns true ->
  (exists out err, bash w command = Completed 0 out err)
  /\ exists message before after,
       snd (gate w command history system_info)
       = (before
          ++ Confirmed message true
          :: Printed (executing_banner command)
          :: Spawned command :: after)%list
       /\ confirm_answer w message = Returns true
       /\ filter is_spawn before = []
       /\ forallb is_print after = true.
Proof.
  gate_leaves; intros H; try discriminate H;
    injection H as ->;
    (split; [now apply Hr|]);
    eexists _, _, _;
    (split; [exact (eq_sym (app_assoc _ [_] _))|]);
    (split; [eassumption|]);
    (split; [reflexivity | now apply prints_all]).
Qed.

(** X12.  The gate hands at most one command to bash: the command it was
    given and no other, and only after a confirmation answered "yes". *)
Theorem gate_runs_only_its_command (w : world) (command : string)
    (history : list string) (system_info : string) (c : string) :
  In (Spawned c) (snd (gate w command history system_info)) ->
  c = command
  /\ List.length (filter is_spawn (snd (gate w command history system_info)))
     = 1
  /\ exists message before after,
       snd (gate w command history system_info)
       = (before ++ Confirmed message true :: after)%list
       /\ filter is_spawn before = [].
Proof.
  gate_leaves; intros H.
  all: rewrite ?in_app_iff in H; cbn [In] in H.
  all: try (exfalso; intuition discriminate).
  all: split;
    [ assert (N := prints_not_spawned evs c Hevs);
      intuition (try discriminate); congruence |].
  all: split;
    [ rewrite !filter_app; cbn; now rewrite (prints_no_spawn evs Hevs) |].
  all: eexists _, _, _; split;
    [ exact (eq_sym (app_assoc _ [_] _)) | reflexivity ].
Qed.

(** X13.  A dangerous command is handed to bash only after two steps, in
    this order: the three-way choice, at which the user chose to see the
    risks or to proceed, and then a confirmation answered "yes".  After the
    choice of the risks, the backend is asked and its answer printed
    between the two; after the choice to proceed, nothing stands between
    them.  Before the choice the gate has only printed its heading. *)
Theorem dangerous_needs_choice_and_confirmation (w : world)
    (command : string) (history : list string) (system_info : string) :
  classify_command command = "dangerous" ->
  In (Spawned command) (snd (gate w command history system_info)) ->
  exists choice message between after,
    chosen w danger_options (danger_header command) = Returns choice
    /\ confirm_answer w message = Returns true
    /\ snd (gate w command history system_info)
       = (heading command
          ++ Chose (danger_options ++ [EXIT_OPTION]) (danger_header command)
                   choice
          :: between
          ++ Confirmed message true
          :: Printed (executing_banner command)
          :: Spawned command :: after)%list
    /\ forallb is_print after = true
    /\ ((startswith choice SIREN = true
         /\ message = risks_message
         /\ exists risks,
              backend_query w (risk_prompt command) history system_info
              = Returns risks
              /\ between = [ Queried (risk_prompt command);
                             Printed (risk_report risks) ])
        \/ (startswith choice LOCK = true
            /\ message = proceed_message
            /\ between = [])).
Proof.
  intros Hd. rewrite gate_is_tree. unfold gate_tree. rewrite Hd.
  change ("dangerous" =? "safe") with false.
  change ("dangerous" =? "sudo") with false.
  change ("dangerous" =? "dangerous") with true. cbv iota.
  assert (no_spawn : forall t : list event,
            filter is_spawn t = [] -> ~ In (Spawned command) t).
  { intros t F Hin.
    assert (X : In (Spawned command) (filter is_spawn t))
      by (apply filter_In; now split).
    now rewrite F in X. }
  destruct (chosen w danger_options (danger_header command))
    as [choice|e] eqn:C;
    [|intros H; now apply no_spawn in H].
  destruct (truthy choice && startswith choice SIREN) eqn:S.
  - apply andb_true_iff in S as [_ S].
    destruct (backend_query w (risk_prompt command) history system_info)
      as [risks|e] eqn:Q; [|intros H; now apply no_spawn in H].
    unfold confirm_branch.
    destruct (confirm_answer w risks_message) as [[]|e] eqn:A;
      [ | intros H; now apply no_spawn in H
        | intros H; now apply no_spawn in H ].
    destruct (execute_command_spec w command
                ((((heading command
                    ++ [Chose (danger_options ++ [EXIT_OPTION])
                              (danger_header command) choice])
                   ++ [Queried (risk_prompt command)])
                  ++ [Printed (risk_report risks)])
                 ++ [Confirmed risks_message true])%list)
      as (r & evs & -> & Hevs & _).
    intros _.
    exists choice, risks_message,
      [Queried (risk_prompt command); Printed (risk_report risks)], evs.
    split; [reflexivity|]. split; [exact A|]. split; [reflexivity|].
    split; [now apply prints_all|].
    left. split; [exact S|]. split; [reflexivity|]. now exists risks.
  - destruct (truthy choice && startswith choice LOCK) eqn:P;
      [|intros H; now apply no_spawn in H].
    apply andb_true_iff in P as [_ P].
    unfold confirm_branch.
    destruct (confirm_answer w proceed_message) as [[]|e] eqn:A;
      [ | intros H; now apply no_spawn in H
        | intros H; now apply no_spawn in H ].
    destruct (execute_command_spec w command
                ((heading command
                  ++ [Chose (danger_options ++ [EXIT_OPTION])
                            (danger_header command) choice])
                 ++ [Confirmed proceed_message true])%list)
      as (r & evs & -> & Hevs & _).
    intros _.
    exists choice, proceed_message, [], evs.
    split; [reflexivity|]. split; [exact A|]. split; [reflexivity|].
    split; [now apply prints_all|].
    right. split; [exact P|]. split; reflexivity.
Qed.


Lemma gate_true_means_success_witness :
  (exists out err,
      bash Scenarios.cancelling_user "ls -la" = Completed 0 out err)
  /\ exists message before after,
       snd (gate Scenarios.cancelling_user "ls -la" [] "")
       = (before
          ++ Confirmed message true
          :: Printed (executing_banner "ls -la")
          :: Spawned "ls -la" :: after)%list
       /\ confirm_answer Scenarios.cancelling_user message = Returns true
       /\ filter is_spawn before = []
       /\ forallb is_print after = true.
Proof. apply gate_true_means_success. reflexivity. Defined.

Lemma gate_runs_only_its_command_witness :
  "ls -la" = "ls -la"
  /\ List.length
       (filter is_spawn (snd (gate Scenarios.cancelling_user "ls -la" [] "")))
     = 1
  /\ exists message before after,
       snd (gate Scenarios.cancelling_user "ls -la" [] "")
       = (before ++ Confirmed message true :: after)%list
       /\ filter is_spawn before = [].
Proof.
  apply (gate_runs_only_its_command Scenarios.cancelling_user "ls -la" [] ""
                                    "ls -la").
  vm_compute. do 4 right. left. reflexivity.
Defined.

Lemma dangerous_needs_choice_and_confirmation_witness :
  exists choice message between after,
    chosen Scenarios.approving_user_no_bash danger_options
      (danger_header "rm -rf /tmp/x") = Returns choice
    /\ confirm_answer Scenarios.approving_user_no_bash message = Returns true
    /\ snd (gate Scenarios.approving_user_no_bash "rm -rf /tmp/x" [] "")
       = (heading "rm -rf /tmp/x"
          ++ Chose (danger_options ++ [EXIT_OPTION])
                   (danger_header "rm -rf /tmp/x") choice
          :: between
          ++ Confirmed message true
          :: Printed (executing_banner "rm -rf /tmp/x")
          :: Spawned "rm -rf /tmp/x" :: after)%list
    /\ forallb is_print after = true
    /\ ((startswith choice SIREN = true
         /\ message = risks_message
         /\ exists risks,
              backend_query Scenarios.approving_user_no_bash
                (risk_prompt "rm -rf /tmp/x") [] "" = Returns risks
              /\ between = [ Queried (risk_prompt "rm -rf /tmp/x");
                             Printed (risk_report risks) ])
        \/ (startswith choice LOCK = true
            /\ message = proceed_message
            /\ between = [])).
Proof.
  apply (dangerous_needs_choice_and_confirmation
           Scenarios.approving_user_no_bash "rm -rf /tmp/x" [] "").
  - reflexivity.
  - vm_compute. do 7 right. left. reflexivity.
Defined.



Lemma gate_spawn_only (w : world) (command : string)
    (history : list string) (system_info : string) :
  List.length (filter is_spawn (snd (gate w command history system_info)))
  <= 1
  /\ forall c,
       In (Spawned c) (snd (gate w command history system_info)) ->
       c = command.
Proof.
  gate_leaves.
  all: split;
    [ rewrite ?filter_app; cbn;
      try rewrite (prints_no_spawn evs Hevs); cbn; lia |].
  all: intros c H; rewrite ?in_app_iff in H; cbn [In] in H.
  all: try (assert (N := prints_not_spawned evs c Hevs)).
  all: intuition (try discriminate); congruence.
Qed.

(** With a backend that answers and dialogs that are answered, the gate
    returns. *)
Lemma gate_returns (w : world) (command : string)
    (history : list string) (system_info : string) :
  dialogs_answered w ->
  (forall prompt,
      exists text,
        backend_query w prompt history system_info = Returns text) ->
  exists r, fst (gate w command history system_info) = Returns r.
Proof.
  intros [Hc Hm] Hq. gate_leaves; try (now eexists).
  all: exfalso.
  all: repeat match goal with
       | E : confirm_answer _ ?m = Raises _ |- _ =>
           destruct (Hc m) as [? ?]; congruence
       | E : chosen ?u ?o ?h = Raises _ |- _ =>
           destruct (answered_choice u o h Hm) as [? ?]; congruence
       | E : backend_query _ ?q _ _ = Raises _ |- _ =>
           destruct (Hq q) as [? ?]; congruence
       end.
Qed.

End GateMore.

(** ** The presenter, main, the mock clients and the dialogs without gum *)

Module PipelineMore.

Import Regex CommandClassifier CommandExtractor GumCommandInterface.
Import Presenter GateScript GateProps GateMore.
Import config backends utils Main mocks prompts ClassifierMore.

Lemma appends_ret (A : Type) (a : A) : appends (ret a).
Proof. intros t. unfold ret, after. cbn. now rewrite app_nil_r. Qed.

Lemma appends_emit (e : event) : appends (emit e).
Proof. intros t. reflexivity. Qed.

Lemma appends_bind (A B : Type) (m : io A) (k : A -> io B) :
  appends m -> (forall a, appends (k a)) -> appends (bind m k).
Proof.
  intros Hm Hk t. unfold bind. rewrite (Hm t). unfold after at 1.
  destruct (m []) as [[a|e] t0]; cbn [fst snd].
  - rewrite (Hk a (t ++ t0)%list), (Hk a t0). unfold after. cbn [fst snd].
    now rewrite app_assoc.
  - reflexivity.
Qed.

Lemma appends_execute_command (w : world) (command : string) :
  appends (execute_command w command).
Proof.
  unfold execute_command, print.
  repeat first [ apply appends_bind; [|intros ?] | apply appends_emit
               | apply appends_ret
               | match goal with
                 | |- appends (match ?x with _ => _ end) => destruct x
                 end ].
Qed.

Lemma appends_raise (A : Type) (e : exn) : appends (@raise A e).
Proof. intros t. unfold raise, after. cbn. now rewrite app_nil_r. Qed.

Lemma appends_gum_confirm (w : world) (message : string) :
  appends (gum_confirm w message).
Proof.
  unfold gum_confirm.
  destruct (confirm_answer w message);
    (apply appends_bind; [apply appends_emit|]); intros _;
    [apply appends_ret | apply appends_raise].
Qed.

Lemma appends_gum_choose (w : world) (options : list string)
    (header : string) :
  appends (gum_choose w options header).
Proof.
  unfold gum_choose.
  destruct (chosen w options header);
    (apply appends_bind; [apply appends_emit|]); intros _;
    [apply appends_ret | apply appends_raise].
Qed.

Lemma appends_handle (w : world) (command : string) (history : list string)
    (system_info : string) :
  appends (handle_command_execution w command history system_info).
Proof.
  unfold handle_command_execution, print, explain_command_risks.
  generalize (classify_command command) as cl. intros cl.
  repeat first [ apply appends_execute_command
               | apply appends_gum_confirm
               | apply appends_gum_choose
               | apply appends_bind; [|intros ?] | apply appends_emit
               | apply appends_ret
               | match goal with
                 | |- appends (if ?b then _ else _) => destruct b
                 end
               | (intros t; unfold after; cbn [fst snd];
                  now rewrite app_nil_r) ].
Qed.

Lemma print_numbered_run (commands : list string) (i : nat) (t : list event) :
  print_numbered i commands t
  = (Returns tt,
     (t ++ map (fun line => Printed ("  " ++ line)) (numbered i commands))
     %list).
Proof.
  revert i t; induction commands as [|c commands IH]; intros i t.
  - cbn. now rewrite app_nil_r.
  - cbn [print_numbered numbered map]. unfold bind, print, emit.
    rewrite IH. now rewrite <- app_assoc.
Qed.

Lemma presenter_is_tree (w : world) (response : string)
    (history : list string) (system_info : string) :
  process_ai_response w response history system_info []
  = presenter_tree w response history system_info.
Proof.
  unfold process_ai_response, presenter_tree.
  unfold bind at 1. unfold print at 1. unfold emit. cbn [app].
  destruct (extract_commands response) as [|c cs] eqn:E; [reflexivity|].
  unfold bind at 1. unfold print at 1. unfold emit.
  unfold bind at 1. rewrite print_numbered_run.
  unfold bind at 1. unfold gum_choose. fold choose_header.
  destruct (chosen w (c :: cs) choose_header) as [choice|e].
  2: { unfold bind, emit, raise, listing. now rewrite <- app_assoc. }
  unfold bind at 1, emit, ret.
  change "Don't run a command" with EXIT_OPTION.
  destruct (String.eqb choice EXIT_OPTION).
  - reflexivity.
  - unfold bind.
    rewrite (appends_handle w _ history system_info _).
    unfold after, forget, gate, listing. cbn [fst snd].
    destruct (handle_command_execution w choice history system_info [])
      as [[r|e] g]; cbn [fst snd];
      rewrite <- ?app_assoc; reflexivity.
Qed.

Lemma listing_prints (response : string) (commands : list string) (e : event) :
  In e (listing response commands) -> exists text, e = Printed text.
Proof.
  unfold listing. intros [<-|[<-|H]]; [now eexists | now eexists |].
  apply in_map_iff in H as (l & <- & _). now eexists.
Qed.

Lemma listing_no_spawn (response : string) (commands : list string) :
  filter is_spawn (listing response commands) = [].
Proof. apply prints_no_spawn. intros e. apply listing_prints. Qed.

Lemma snd_forget (run : outcome bool * list event) :
  snd (forget run) = snd run.
Proof. now destruct run as [[r|e] t]. Qed.

(** X16.  A reply in which no command is found is printed, with the
    notice that there is nothing to execute; no menu, no confirmation and
    no subprocess follow. *)
Theorem no_command_no_dialog (w : world) (response : string)
    (history : list string) (system_info : string) :
  extract_commands response = [] ->
  process_ai_response w response history system_info []
  = (Returns tt,
     [ Printed response;
       Printed (nl ++ "No executable commands found in the response.") ]).
Proof.
  intros E. rewrite presenter_is_tree. unfold presenter_tree. now rewrite E.
Qed.

(** X17.  When the user takes the exit option of the menu, the presenter
    returns with nothing but printed lines and that one choice in its
    trace: the gate is not entered. *)
Theorem exit_option_runs_nothing (w : world) (response : string)
    (history : list string) (system_info : string) :
  chosen w (extract_commands response) choose_header = Returns EXIT_OPTION ->
  fst (process_ai_response w response history system_info []) = Returns tt
  /\ forall e,
       In e (snd (process_ai_response w response history system_info [])) ->
       (exists text, e = Printed text)
       \/ e = Chose (extract_commands response ++ [EXIT_OPTION])
                    choose_header EXIT_OPTION.
Proof.
  intros E. rewrite presenter_is_tree. unfold presenter_tree.
  destruct (extract_commands response) as [|c cs] eqn:X.
  - split; [reflexivity|]. intros e [<-|[<-|[]]]; left; now eexists.
  - rewrite E, String.eqb_refl. split; [reflexivity|].
    intros e H. cbn [snd] in H. rewrite !in_app_iff in H. cbn [In] in H.
    destruct H as [[H|[<-|[]]]|[<-|[]]].
    + left. now apply (listing_prints response (c :: cs)).
    + now right.
    + left. now eexists.
Qed.

Lemma presenter_spawn_only (w : world) (response : string)
    (history : list string) (system_info : string) :
  let trace := snd (presenter_tree w response history system_info) in
  List.length (filter is_spawn trace) <= 1
  /\ forall c,
       In (Spawned c) trace ->
       chosen w (extract_commands response) choose_header = Returns c
       /\ c <> EXIT_OPTION.
Proof.
  unfold presenter_tree.
  destruct (extract_commands response) as [|c0 cs] eqn:X.
  - cbn. split; [lia|]. intros c [H|[H|[]]]; discriminate.
  - destruct (chosen w (c0 :: cs) choose_header) as [choice|e] eqn:C.
    2: { cbn [snd]. split.
         - rewrite !filter_app, listing_no_spawn. cbn. lia.
         - intros c H. rewrite !in_app_iff in H. cbn [In] in H.
           destruct H as [H|[H|[]]]; try discriminate.
           apply listing_prints in H as [text H]. discriminate. }
    destruct (String.eqb choice EXIT_OPTION) eqn:Q.
    + cbn [snd]. split.
      * rewrite !filter_app, listing_no_spawn. cbn. lia.
      * intros c H. rewrite !in_app_iff in H. cbn [In] in H.
        destruct H as [[H|[H|[]]]|[H|[]]]; try discriminate.
        apply listing_prints in H as [text H]. discriminate.
    + unfold after. cbn [snd]. rewrite snd_forget.
      destruct (gate_spawn_only w choice history system_info) as [L S].
      split.
      * rewrite !filter_app, listing_no_spawn. cbn. exact L.
      * intros c H. rewrite !in_app_iff in H. cbn [In] in H.
        destruct H as [[H|[H|[]]]|H]; try discriminate.
        -- apply listing_prints in H as [text H]. discriminate.
        -- apply S in H. subst c. split; [reflexivity|].
           now apply String.eqb_neq.
Qed.

(** X18.  When the menu hands back one of the entries it offered, the
    only command the presenter can start is one that [extract_commands]
    found in the reply, and it starts it once. *)
Theorem only_extracted_commands_run (w : world) (response : string)
    (history : list string) (system_info : string) (c : string) :
  (forall choice,
      choose_answer w (extract_commands response ++ [EXIT_OPTION])
        choose_header = Returns choice ->
      In choice (extract_commands response ++ [EXIT_OPTION])) ->
  In (Spawned c)
     (snd (process_ai_response w response history system_info [])) ->
  In c (extract_commands response)
  /\ List.length
       (filter is_spawn
          (snd (process_ai_response w response history system_info [])))
     = 1.
Proof.
  intros Hoff H. rewrite presenter_is_tree in *.
  destruct (presenter_spawn_only w response history system_info) as [L S].
  destruct (S c H) as [E Hne]. split.
  - unfold chosen in E.
    destruct (choose_answer w _ choose_header) as [selected|e] eqn:A;
      [|discriminate].
    specialize (Hoff selected eq_refl).
    destruct (truthy selected); injection E as E;
      [|now destruct Hne].
    subst selected. apply in_app_or in Hoff as [Hc|[Hc|[]]];
      [exact Hc | now destruct Hne].
  - assert (P : 1 <= List.length
                  (filter is_spawn
                     (snd (presenter_tree w response history system_info)))).
    { assert (F : In (Spawned c)
                    (filter is_spawn
                       (snd (presenter_tree w response history system_info))))
        by (apply filter_In; now split).
      destruct (filter is_spawn _); [destruct F | simpl; lia]. }
    cbv zeta in L. lia.
Qed.

Lemma appends_print_numbered (commands : list string) (i : nat) :
  appends (print_numbered i commands).
Proof.
  intros t. rewrite !print_numbered_run. unfold after. cbn [fst snd app].
  reflexivity.
Qed.

Lemma appends_process (w : world) (response : string)
    (history : list string) (system_info : string) :
  appends (process_ai_response w response history system_info).
Proof.
  unfold process_ai_response, print.
  repeat first [ apply appends_handle | apply appends_print_numbered
               | apply appends_gum_choose
               | apply appends_bind; [|intros ?] | apply appends_emit
               | apply appends_ret
               | match goal with
                 | |- appends (if ?b then _ else _) => destruct b
                 | |- appends (match ?x with _ => _ end) => destruct x
                 end ].
Qed.

(** With a backend that answers and dialogs that are answered, the
    presenter returns. *)
Lemma presenter_returns (w : world) (response : string)
    (history : list string) (system_info : string) :
  dialogs_answered w ->
  (forall prompt,
      exists text,
        backend_query w prompt history system_info = Returns text) ->
  fst (presenter_tree w response history system_info) = Returns tt.
Proof.
  intros D Q. unfold presenter_tree.
  destruct (extract_commands response) as [|c cs]; [reflexivity|].
  destruct (answered_choice w (c :: cs) choose_header (proj2 D))
    as [choice ->].
  destruct (String.eqb choice EXIT_OPTION); [reflexivity|].
  unfold after, forget. cbn [fst].
  destruct (gate_returns w choice history system_info D Q) as [r G].
  destruct (gate w choice history system_info) as [[r'|e] g];
    [reflexivity | discriminate].
Qed.

Lemma except_Exception_trace (env : environment) (backend : json) (e : exn)
    (t : list event) (x : event) :
  In x (snd (except_Exception env backend e t)) ->
  In x t \/ exists text, x = Printed text.
Proof.
  unfold except_Exception. destruct (is_Exception e); cbn [snd].
  - rewrite in_app_iff. intros [H|[<-|[]]]; [now left | right; now eexists].
  - now left.
Qed.

Lemma import_prints_printed (env : environment) (b : backends.backend)
    (x : event) :
  In x (map Printed (import_prints env b)) -> exists text, x = Printed text.
Proof. intros H. apply in_map_iff in H as (text & <- & _). now eexists. Qed.

(** X19.  [main] hands a command to bash only when there is a prompt, the
    configuration and the history can be read, the configured backend is
    one of gpt, claude and ollama, its module loads and its query
    returns; the command is then the one taken at the menu, never the
    exit option. *)
Theorem main_runs_only_extracted (env : environment) (c : string) :
  In (Spawned c) (snd (main env)) ->
  2 <= List.length (argv env)
  /\ exists backend file b response,
       get_backend (config_state env) = Returns backend
       /\ history_file env = Returns file
       /\ select_backend backend = Some b
       /\ import_module env b = Loaded
       /\ module_query env b (join " " (tl (argv env)))
            (get_terminal_history file) (get_system_info (neofetch env))
          = Returns response
       /\ chosen (interface env b) (extract_commands response) choose_header
          = Returns c
       /\ c <> EXIT_OPTION.
Proof.
  unfold main. destruct (List.length (argv env) <? 2)%nat eqn:L.
  { cbn. intros [H|[]]. discriminate. }
  apply Nat.ltb_ge in L. intros H. split; [exact L|]. revert H.
  destruct (get_backend (config_state env)) as [backend|e]; [|intros []].
  destruct (history_file env) as [file|e]; [|intros []].
  cbv zeta.
  destruct (select_backend backend) as [b|] eqn:S.
  2: { cbn. intros [H|[]]. discriminate. }
  destruct (import_module env b) as [|text|e] eqn:I.
  2: { cbn [snd]. rewrite in_app_iff. intros [H|[H|[]]]; [|discriminate].
       apply import_prints_printed in H as [text' H]. discriminate. }
  2: { intros H. apply except_Exception_trace in H as [H|[text H]];
         [|discriminate].
       apply import_prints_printed in H as [text' H]. discriminate. }
  destruct (module_query env b _ _ _) as [response|e] eqn:Q.
  2: { intros H. apply except_Exception_trace in H as [H|[text H]];
         [|discriminate].
       apply in_app_iff in H as [H|[H|[]]]; [|discriminate].
       apply import_prints_printed in H as [text' H]. discriminate. }
  rewrite (appends_process (interface env b) response _ _ _),
    presenter_is_tree.
  destruct (presenter_spawn_only (interface env b) response
              (get_terminal_history file) (get_system_info (neofetch env)))
    as [_ P].
  intros H. exists backend, file, b, response.
  assert (T : In (Spawned c)
                (snd (presenter_tree (interface env b) response
                        (get_terminal_history file)
                        (get_system_info (neofetch env))))).
  { unfold after in H. cbn [fst snd] in H.
    destruct (presenter_tree _ _ _ _) as [[u|e] t]; cbn [fst snd] in *.
    - rewrite !in_app_iff in H. destruct H as [[H|[H|[]]]|H];
        [|discriminate|exact H].
      apply import_prints_printed in H as [text' H]. discriminate.
    - apply except_Exception_trace in H as [H|[text H]]; [|discriminate].
      rewrite !in_app_iff in H. destruct H as [[H|[H|[]]]|H];
        [|discriminate|exact H].
      apply import_prints_printed in H as [text' H]. discriminate. }
  destruct (P c T) as [E N]. repeat split; assumption.
Qed.

(** X20.  Once [main] has a prompt and has read the configuration and the
    history, it finishes or exits with status 1, unless it is
    interrupted: every [Exception] of the import, of the query, of the
    presenter and of the dialogs is caught.  It finishes normally when
    the backend is known, its module loads and answers every query, and
    every dialog is answered, whatever the answers and whatever the exit
    code of the command. *)
Theorem main_finishes_when_backend_answers (env : environment)
    (backend : json) (file : option string) :
  2 <= List.length (argv env) ->
  get_backend (config_state env) = Returns backend ->
  history_file env = Returns file ->
  (fst (main env) = Finished \/ fst (main env) = SysExit 1
   \/ exists e, fst (main env) = Uncaught e /\ is_Exception e = false)
  /\ forall b,
       select_backend backend = Some b ->
       import_module env b = Loaded ->
       (forall prompt history info,
           exists text, module_query env b prompt history info = Returns text) ->
       dialogs_answered (user env) ->
       fst (main env) = Finished.
Proof.
  intros L G F. unfold main.
  apply Nat.ltb_ge in L. rewrite L, G, F. cbv zeta.
  assert (X : forall e t,
            fst (except_Exception env backend e t) = SysExit 1
            \/ exists e', fst (except_Exception env backend e t) = Uncaught e'
                          /\ is_Exception e' = false).
  { intros e t. unfold except_Exception.
    destruct (is_Exception e) eqn:O; [now left | right; now exists e]. }
  split.
  - destruct (select_backend backend) as [b|]; [|right; now left].
    destruct (import_module env b) as [|text|e];
      [|right; now left|right; apply X].
    destruct (module_query env b _ _ _) as [response|e]; [|right; apply X].
    destruct (process_ai_response _ _ _ _ _) as [[u|e] t];
      [now left | right; apply X].
  - intros b S I Q D. rewrite S, I.
    destruct (Q (join " " (tl (argv env))) (get_terminal_history file)
                (get_system_info (neofetch env))) as [response ->].
    rewrite (appends_process (interface env b) response _ _ _),
      presenter_is_tree.
    unfold after. cbn [fst snd].
    assert (R : fst (presenter_tree (interface env b) response
                       (get_terminal_history file)
                       (get_system_info (neofetch env))) = Returns tt).
    { apply presenter_returns; [exact D|].
      intros prompt. apply Q. }
    destruct (presenter_tree _ _ _ _) as [[u|e] t];
      [reflexivity | discriminate].
Qed.

(** X21.  Without a prompt, [main] exits with status 1.  So it does, once
    the configuration and the history are read, with an unknown backend
    name, with a module whose import raises [ImportError] or another
    [Exception], or with a query that raises an [Exception].  In all these
    cases it has shown no dialog and handed no command to bash. *)
Theorem main_stops_early (env : environment) :
  List.length (argv env) < 2
  \/ (exists backend file,
        get_backend (config_state env) = Returns backend
        /\ history_file env = Returns file
        /\ (select_backend backend = None
            \/ exists b,
                 select_backend backend = Some b
                 /\ ((exists text, import_module env b = ImportError text)
                     \/ (exists e,
                           import_module env b = ImportRaises e
                           /\ is_Exception e = true)
                     \/ (import_module env b = Loaded
                         /\ exists e,
                              module_query env b (join " " (tl (argv env)))
                                (get_terminal_history file)
                                (get_system_info (neofetch env))
                              = Raises e
                              /\ is_Exception e = true)))) ->
  fst (main env) = SysExit 1
  /\ forall e, In e (snd (main env)) ->
               is_dialog e = false /\ is_spawn e = false.
Proof.
  assert (P : forall b x,
            In x (map Printed (import_prints env b)) ->
            is_dialog x = false /\ is_spawn x = false).
  { intros b x H. apply import_prints_printed in H as [text ->]. now split. }
  unfold main. intros [L|(backend & file & G & F & H)].
  - apply Nat.ltb_lt in L. rewrite L. split; [reflexivity|].
    intros e [<-|[]]. now split.
  - destruct (List.length (argv env) <? 2)%nat.
    { split; [reflexivity|]. intros e [<-|[]]. now split. }
    rewrite G, F. cbv zeta.
    destruct H as [S|(b & S & [[text I]|[(e & I & O)|(I & e & Q & O)]])];
      rewrite S.
    + split; [reflexivity|]. intros e [<-|[]]. now split.
    + rewrite I. split; [reflexivity|]. cbn [snd]. intros x H.
      apply in_app_iff in H as [H|[<-|[]]]; [now apply (P b) | now split].
    + rewrite I. unfold except_Exception. rewrite O. split; [reflexivity|].
      cbn [snd]. intros x H.
      apply in_app_iff in H as [H|[<-|[]]]; [now apply (P b) | now split].
    + rewrite I, Q. unfold except_Exception. rewrite O.
      split; [reflexivity|]. cbn [snd]. intros x H.
      rewrite !in_app_iff in H. destruct H as [[H|[<-|[]]]|[<-|[]]];
        [now apply (P b) | now split | now split].
Qed.

(** X30.  The history is read before the [try] of [main]: when the
    history file exists and cannot be read, the exception of [open] or
    [read] ends the run, before anything is printed and before the backend
    name is looked at.  A failure of neofetch does not end the run: [main]
    goes on as if neofetch had printed "System info unavailable". *)
Theorem history_failure_is_fatal (env : environment) (backend : json) :
  2 <= List.length (argv env) ->
  get_backend (config_state env) = Returns backend ->
  (forall e, history_file env = Raises e -> main env = (Uncaught e, []))
  /\ (neofetch env = None ->
      main env
      = main (Environments.with_neofetch env
                (Some "System info unavailable"))).
Proof.
  intros L G. split.
  - intros e H. unfold main. apply Nat.ltb_ge in L. now rewrite L, G, H.
  - intros N. unfold main, except_Exception, interface.
    cbn [Environments.with_neofetch argv config_state history_file neofetch
         import_prints import_module module_query user str_of_json
         str_of_exn].
    rewrite N. reflexivity.
Qed.

Lemma full_prompt_mentions_system (joined info prompt : string) :
  str_in "system"
    (lower ("Terminal history: " ++ joined ++ lf ++ lf ++ "System: " ++ info
            ++ lf ++ lf ++ "Question: " ++ prompt)) = true.
Proof.
  apply str_in_spec.
  exists (lower ("Terminal history: " ++ joined) ++ lf ++ lf),
         (": " ++ lower (info ++ lf ++ lf ++ "Question: " ++ prompt)).
  change ("Terminal history: " ++ joined ++ lf ++ lf ++ "System: " ++ info
          ++ lf ++ lf ++ "Question: " ++ prompt)
    with ("Terminal history: "
          ++ (joined ++ (lf ++ lf ++ "System: "
                         ++ (info ++ lf ++ lf ++ "Question: " ++ prompt)))).
  rewrite <- (append_assoc "Terminal history: " joined).
  rewrite (lower_append ("Terminal history: " ++ joined)).
  rewrite append_assoc. reflexivity.
Qed.

(** X23.  Through [query], the mock client of gpt and of claude gives
    one of two replies only: the prompt it receives always holds the word
    "System", so the "history" reply and the default reply are never
    reached. *)
Theorem mock_reply_is_help_or_system (prompt : string)
    (history : list string) (info : string) :
  (gpt_query prompt history info
   = "I'm here to help! What would you like assistance with?"
   \/ gpt_query prompt history info
      = "Here's some system information and assistance based on your query.")
  /\ (claude_query prompt history info
      = "I'm Claude, here to help! What would you like assistance with?"
      \/ claude_query prompt history info
         = "Based on your system information, here's my analysis and suggestions.").
Proof.
  unfold gpt_query, claude_query, gpt_create, claude_create, last_content.
  cbn [messages gpt_backend.query_request claude_backend.query_request
       List.rev app content].
  rewrite (full_prompt_mentions_system
             (join ", " (last_entries 10 history)) info prompt).
  destruct (str_in "help" _); split; auto.
Qed.

Lemma mock_replies_plain (messages : list message) :
  all_chars not_backtick (gpt_create messages) = true
  /\ all_chars not_backtick (claude_create messages) = true.
Proof.
  unfold gpt_create, claude_create.
  repeat match goal with
         | |- context [if ?b then _ else _] => destruct b
         end; split; reflexivity.
Qed.

Lemma plain_reply_presented (w : world) (response : string)
    (history : list string) (info : string) :
  all_chars not_backtick response = true ->
  process_ai_response w response history info []
  = (Returns tt,
     [ Printed response;
       Printed (nl ++ "No executable commands found in the response.") ]).
Proof.
  intros H. rewrite presenter_is_tree. unfold presenter_tree.
  rewrite ExtractorFacts.extract_commands_eq.
  now rewrite (ExtractorMore.code_blocks_no_backtick _ H),
    (ExtractorFacts.inline_kept_no_backtick _ H).
Qed.

(** X24.  No reply of a mock client holds a command: the presenter
    prints it with the notice that there is nothing to execute. *)
Theorem mock_reply_offers_nothing (w : world) (messages : list message)
    (history : list string) (info : string) :
  process_ai_response w (gpt_create messages) history info []
  = (Returns tt,
     [ Printed (gpt_create messages);
       Printed (nl ++ "No executable commands found in the response.") ])
  /\ process_ai_response w (claude_create messages) history info []
     = (Returns tt,
        [ Printed (claude_create messages);
          Printed (nl ++ "No executable commands found in the response.") ]).
Proof.
  destruct (mock_replies_plain messages) as [G C].
  split; now apply plain_reply_presented.
Qed.

(** X25.  History older than the last ten entries has no influence on
    the request of any backend. *)
Theorem old_history_ignored (b : backends.backend) (prompt : string)
    (older older' recent : list string) (info : string) :
  List.length recent = 10 ->
  query_request b prompt (older ++ recent) info
  = query_request b prompt (older' ++ recent) info.
Proof.
  intros L.
  assert (E : forall o, last_entries 10 (o ++ recent)%list = recent).
  { intros o. unfold last_entries. rewrite length_app, L.
    replace (List.length o + 10 - 10) with (List.length o + 0) by lia.
    rewrite skipn_app, Nat.add_0_r, skipn_all.
    replace (List.length o - List.length o) with 0 by lia. reflexivity. }
  destruct b;
    unfold query_request, gpt_backend.query_request,
      claude_backend.query_request, ollama_backend.query_request;
    now rewrite !E.
Qed.

(** X26.  When gum is missing or fails, the numbered menu never fails
    with an index out of range, and what it returns is one of the options
    it listed or the exit option. *)
Theorem menu_returns_offered_option (options : list string)
    (header gum_error : string) (gum : gum_run) (typed : list (option Z)) :
  (forall stdout, gum <> GumExit 0 stdout) ->
  fst (gum_choose_run options header gum gum_error typed) <> IndexError
  /\ forall text,
       fst (gum_choose_run options header gum gum_error typed) = Selected text ->
       In text (options ++ [EXIT_OPTION]).
Proof.
  intros Hg.
  assert (M : fst (menu_loop options typed) <> IndexError
              /\ forall text, fst (menu_loop options typed) = Selected text ->
                              In text (options ++ [EXIT_OPTION])).
  { induction typed as [|[choice|] typed IH]; cbn [menu_loop].
    - split; [discriminate | discriminate].
    - destruct (choice =? 0)%Z.
      { split; [discriminate|]. intros text [= <-].
        apply in_or_app. right. now left. }
      destruct ((1 <=? choice) && (choice <=? Z.of_nat (List.length options)))%Z
        eqn:R.
      + apply andb_true_iff in R as [R1 R2].
        apply Z.leb_le in R1, R2.
        destruct (nth_error options (Z.to_nat (choice - 1))) as [o|] eqn:N.
        * split; [discriminate|]. intros text [= <-].
          apply in_or_app. left. now apply (nth_error_In _ _ N).
        * exfalso. apply nth_error_None in N. lia.
      + destruct (menu_loop options typed) as [r out]. exact IH.
    - destruct (menu_loop options typed) as [r out]. exact IH. }
  unfold gum_choose_run.
  destruct gum as [|rc stdout].
  - destruct (menu_loop options typed) as [r out]. exact M.
  - destruct (Z.eqb_spec rc 0) as [->|_]; [now destruct (Hg stdout)|].
    destruct (menu_loop options typed) as [r out]. exact M.
Qed.

(** X27.  Without gum, the confirmation depends on the typed line only
    up to the blanks around it and the case of its letters, and a blank
    line is a "no". *)
Theorem confirm_fallback_reads_trimmed_line (typed w1 w2 : string) :
  all_chars is_space w1 = true -> all_chars is_space w2 = true ->
  gum_confirm_run GumMissing (w1 ++ typed ++ w2)
  = gum_confirm_run GumMissing typed
  /\ gum_confirm_run GumMissing (lower typed)
     = gum_confirm_run GumMissing typed
  /\ gum_confirm_run GumMissing (w1 ++ w2) = false.
Proof.
  intros H1 H2. unfold gum_confirm_run. repeat split.
  - now rewrite (strip_padded _ _ _ H1 H2).
  - now rewrite <- ExtractorMore.lower_strip, lower_idem.
  - replace (w1 ++ w2) with (w1 ++ "" ++ w2) by reflexivity.
    now rewrite (strip_padded _ _ _ H1 H2).
Qed.

Lemma no_command_no_dialog_witness :
  process_ai_response eager_user "Nothing to run here." [] "" []
  = (Returns tt,
     [ Printed "Nothing to run here.";
       Printed (nl ++ "No executable commands found in the response.") ]).
Proof. apply no_command_no_dialog. reflexivity. Defined.

Lemma exit_option_runs_nothing_witness :
  fst (process_ai_response reluctant_user "Try `ls -la` there." [] "" [])
  = Returns tt.
Proof.
  apply (exit_option_runs_nothing reluctant_user "Try `ls -la` there." [] "").
  reflexivity.
Defined.

Lemma only_extracted_commands_run_witness :
  In "ls -la" (extract_commands "Try `ls -la` there.")
  /\ List.length
       (filter is_spawn
          (snd (process_ai_response eager_user "Try `ls -la` there." []
                  "" [])))
     = 1.
Proof.
  apply (only_extracted_commands_run eager_user "Try `ls -la` there." [] "").
  - intros choice [= <-]. vm_compute. left. reflexivity.
  - vm_compute. repeat first [left; reflexivity | right].
Defined.

Lemma main_runs_only_extracted_witness :
  2 <= List.length (argv Environments.working).
Proof.
  apply (main_runs_only_extracted Environments.working "ls -la").
  vm_compute. repeat first [left; reflexivity | right].
Defined.

Lemma main_finishes_when_backend_answers_witness :
  fst (main Environments.working) = Finished
  /\ (fst (main Environments.input_ends) = Finished
      \/ fst (main Environments.input_ends) = SysExit 1
      \/ exists e, fst (main Environments.input_ends) = Uncaught e
                   /\ is_Exception e = false).
Proof.
  split.
  - apply (main_finishes_when_backend_answers Environments.working
             (JString "ollama") (Some ("cd /tmp" ++ nl)))
      with (b := Ollama).
    + simpl. lia.
    + reflexivity.
    + reflexivity.
    + reflexivity.
    + reflexivity.
    + intros q h i. now eexists.
    + split; [intros m | intros o h]; now eexists.
  - apply (main_finishes_when_backend_answers Environments.input_ends
             (JString "ollama") (Some ("cd /tmp" ++ nl))).
    + simpl. lia.
    + reflexivity.
    + reflexivity.
Defined.

Lemma main_stops_early_witness :
  fst (main Environments.no_prompt) = SysExit 1.
Proof.
  apply (main_stops_early Environments.no_prompt). left. simpl. lia.
Defined.

Lemma history_failure_is_fatal_witness :
  main Environments.unreadable_history = (Uncaught OSError, []).
Proof.
  refine (proj1 (history_failure_is_fatal Environments.unreadable_history
                   (JString "ollama") _ _) OSError _).
  - simpl. lia.
  - reflexivity.
  - reflexivity.
Defined.

Lemma old_history_ignored_witness :
  query_request Claude "why?"
    (["make"; "make test"]
     ++ ["1"; "2"; "3"; "4"; "5"; "6"; "7"; "8"; "9"; "10"]) "Ubuntu"
  = query_request Claude "why?"
      ([] ++ ["1"; "2"; "3"; "4"; "5"; "6"; "7"; "8"; "9"; "10"]) "Ubuntu".
Proof. apply old_history_ignored. reflexivity. Defined.

Lemma menu_returns_offered_option_witness :
  fst (gum_choose_run ["ls -la"; "pwd"] choose_header GumMissing
         "[Errno 2] No such file or directory: 'gum'"
         [None; Some 7%Z; Some 2%Z])
  <> IndexError.
Proof.
  apply (menu_returns_offered_option ["ls -la"; "pwd"] choose_header
           "[Errno 2] No such file or directory: 'gum'" GumMissing
           [None; Some 7%Z; Some 2%Z]).
  intros stdout. discriminate.
Defined.

Lemma confirm_fallback_reads_trimmed_line_witness :
  gum_confirm_run GumMissing ("  " ++ "Yes" ++ " ")
  = gum_confirm_run GumMissing "Yes".
Proof.
  apply (confirm_fallback_reads_trimmed_line "Yes" "  " " "); reflexivity.
Defined.

End PipelineMore.

(** ** utils.py: the history and the system information *)

Module UtilsMore.

Import utils backends.

Lemma skip_run_length (class : ascii -> bool) (s : string) :
  String.length (skip_run class s) <= String.length s.
Proof.
  induction s as [|c s IH]; simpl; [lia|].
  destruct (class c); simpl; lia.
Qed.

Lemma match_ansi_shrinks (s rest : string) :
  match_ansi s = Some rest -> String.length rest < String.length s.
Proof.
  unfold match_ansi. destruct s as [|e [|b r]]; try discriminate.
  destruct (Ascii.eqb e ESC && Ascii.eqb b "["); [|discriminate].
  pose proof (skip_run_length intermediate_char (skip_run parameter_char r))
    as L1.
  pose proof (skip_run_length parameter_char r) as L2.
  destruct (skip_run intermediate_char (skip_run parameter_char r))
    as [|f rest']; [discriminate|].
  destruct (final_char f); [|discriminate].
  intros [= <-]. simpl in *. lia.
Qed.

Lemma remove_ansi_fuel_irrelevant (f1 f2 : nat) (s : string) :
  String.length s < f1 -> String.length s < f2 ->
  remove_ansi_fuel f1 s = remove_ansi_fuel f2 s.
Proof.
  revert f2 s; induction f1 as [|f1 IH]; intros f2 s H1 H2; [lia|].
  destruct f2 as [|f2]; [lia|]. simpl.
  destruct (match_ansi s) as [rest|] eqn:E.
  - apply match_ansi_shrinks in E. apply IH; lia.
  - destruct s as [|c r]; [reflexivity|]. simpl in *. f_equal.
    apply IH; lia.
Qed.

(** The recursion equation of [remove_ansi]: the fuel never runs out. *)
Lemma remove_ansi_eq (s : string) :
  remove_ansi s =
  match match_ansi s with
  | Some rest => remove_ansi rest
  | None =>
      match s with
      | EmptyString => EmptyString
      | String c r => String c (remove_ansi r)
      end
  end.
Proof.
  change (remove_ansi s)
    with (match match_ansi s with
          | Some rest => remove_ansi_fuel (String.length s) rest
          | None =>
              match s with
              | EmptyString => EmptyString
              | String c r => String c (remove_ansi_fuel (String.length s) r)
              end
          end).
  destruct (match_ansi s) as [rest|] eqn:E.
  - pose proof (match_ansi_shrinks _ _ E).
    apply remove_ansi_fuel_irrelevant; lia.
  - destruct s as [|c r]; reflexivity.
Qed.

Lemma remove_ansi_skip (pre rest : string) :
  all_chars not_escape pre = true ->
  remove_ansi (pre ++ rest) = pre ++ remove_ansi rest.
Proof.
  induction pre as [|c pre IH]; intros H; [reflexivity|].
  simpl in H. apply andb_true_iff in H as [Hc Hp].
  unfold not_escape in Hc. apply negb_true_iff in Hc.
  rewrite remove_ansi_eq. cbn [append].
  assert (M : match_ansi (String c (pre ++ rest)) = None).
  { unfold match_ansi. destruct (pre ++ rest); [reflexivity|].
    now rewrite Hc. }
  rewrite M. now rewrite (IH Hp).
Qed.

Lemma skip_run_all (class : ascii -> bool) (a b : string) :
  all_chars class a = true -> skip_run class (a ++ b) = skip_run class b.
Proof.
  induction a as [|c a IH]; intros H; [reflexivity|].
  simpl in H. apply andb_true_iff in H as [Hc Ha].
  cbn [append skip_run]. now rewrite Hc, (IH Ha).
Qed.

Lemma classes_apart (c : ascii) :
  (intermediate_char c = true -> parameter_char c = false)
  /\ (final_char c = true -> parameter_char c = false)
  /\ (final_char c = true -> intermediate_char c = false).
Proof.
  unfold intermediate_char, parameter_char, final_char, between.
  repeat split; intros H; apply andb_true_iff in H as [H1 H2];
    apply Nat.leb_le in H1, H2; apply andb_false_iff;
    rewrite !Nat.leb_gt; lia.
Qed.

Lemma match_ansi_sequence (parameters intermediates post : string)
    (final : ascii) :
  all_chars parameter_char parameters = true ->
  all_chars intermediate_char intermediates = true ->
  final_char final = true ->
  match_ansi (control_sequence parameters intermediates final ++ post)
  = Some post.
Proof.
  intros Hp Hi Hf. unfold control_sequence, match_ansi. cbn [append].
  rewrite !Ascii.eqb_refl. cbn [andb].
  rewrite !append_assoc, (skip_run_all _ _ _ Hp).
  destruct (classes_apart final) as (_ & F1 & F2).
  assert (S1 : skip_run parameter_char
                 (intermediates ++ String final "" ++ post)
               = intermediates ++ String final "" ++ post).
  { destruct intermediates as [|c r]; cbn [append skip_run].
    - now rewrite (F1 Hf).
    - simpl in Hi. apply andb_true_iff in Hi as [Hc _].
      destruct (classes_apart c) as (I1 & _). now rewrite (I1 Hc). }
  rewrite S1, (skip_run_all _ _ _ Hi). cbn [append skip_run].
  now rewrite (F2 Hf), Hf.
Qed.

(** X28.  [get_system_info] leaves text without an escape character as
    it is, and takes out a control sequence (ESC, bracket, parameters,
    intermediates, final character) that follows such text; when neofetch
    cannot be run it returns a fixed message instead of raising. *)
Theorem system_info_without_sequences (pre parameters intermediates post
    : string) (final : ascii) :
  all_chars not_escape pre = true ->
  all_chars parameter_char parameters = true ->
  all_chars intermediate_char intermediates = true ->
  final_char final = true ->
  get_system_info (Some pre) = pre
  /\ get_system_info
       (Some (pre ++ control_sequence parameters intermediates final ++ post))
     = pre ++ get_system_info (Some post)
  /\ get_system_info None = "System info unavailable".
Proof.
  intros Hpre Hp Hi Hf. unfold get_system_info. repeat split.
  - rewrite <- (append_empty_r pre) at 1.
    rewrite (remove_ansi_skip _ _ Hpre). now rewrite append_empty_r.
  - rewrite (remove_ansi_skip _ _ Hpre). f_equal.
    rewrite remove_ansi_eq. now rewrite match_ansi_sequence.
Qed.

Lemma system_info_without_sequences_witness :
  get_system_info
    (Some ("OS: " ++ control_sequence "1;31" "" "m" ++ "Ubuntu"))
  = "OS: " ++ get_system_info (Some "Ubuntu").
Proof.
  apply (system_info_without_sequences "OS: " "1;31" "" "Ubuntu" "m");
    reflexivity.
Defined.

Lemma splitlines_no_break (n : nat) (s entry : string) :
  String.length s <= n -> In entry (splitlines s) ->
  all_chars not_break entry = true.
Proof.
  revert s entry; induction n as [|n IH]; intros s entry L.
  - destruct s; [intros [] | simpl in L; lia].
  - destruct s as [|c r]; [intros []|]. simpl in L. cbn [splitlines].
    destruct (is_break c) eqn:B.
    + destruct r as [|d r'].
      * intros [<-|[]]. reflexivity.
      * destruct (Ascii.eqb c "013" && Ascii.eqb d "010").
        -- intros [<-|H]; [reflexivity|].
           apply (IH r'); [simpl in L; lia | exact H].
        -- intros [<-|H]; [reflexivity|]. apply (IH (String d r')); [lia|].
           exact H.
    + assert (Hc : not_break c = true) by (unfold not_break; now rewrite B).
      destruct (splitlines r) as [|l ls] eqn:E.
      * intros [<-|[]]. simpl. now rewrite Hc.
      * intros [<-|H].
        -- simpl. rewrite Hc. apply (IH r); [lia|]. rewrite E. now left.
        -- apply (IH r); [lia|]. rewrite E. now right.
Qed.

Lemma join_no_break (entries : list string) :
  (forall entry, In entry entries -> all_chars not_break entry = true) ->
  all_chars not_break (join ", " entries) = true.
Proof.
  induction entries as [|e [|e' es] IH]; intros H.
  - reflexivity.
  - apply H. now left.
  - change (join ", " (e :: e' :: es))
      with (e ++ ", " ++ join ", " (e' :: es)).
    rewrite !StripFacts.all_chars_append.
    rewrite (H e (or_introl eq_refl)). cbn [andb].
    rewrite IH; [reflexivity|]. intros x Hx. apply H. now right.
Qed.

(** X29.  No entry of the history holds a line boundary, so the history
    that a backend puts into its prompt, the last ten entries joined by
    commas, stays on one line; without a history file the history is
    empty. *)
Theorem history_stays_on_one_line (history_file : option string) :
  (forall entry,
      In entry (get_terminal_history history_file) ->
      all_chars not_break entry = true)
  /\ all_chars not_break
       (join ", " (last_entries 10 (get_terminal_history history_file)))
     = true
  /\ get_terminal_history None = [].
Proof.
  assert (H : forall entry,
             In entry (get_terminal_history history_file) ->
             all_chars not_break entry = true).
  { destruct history_file as [text|]; [|intros entry []].
    intros entry. now apply (splitlines_no_break (String.length text)). }
  repeat split; [exact H|].
  apply join_no_break. intros entry Hin. apply H.
  unfold last_entries in Hin.
  rewrite <- (firstn_skipn
                (List.length (get_terminal_history history_file) - 10)).
  apply in_or_app. now right.
Qed.

End UtilsMore.
